(** * rack::midi — device abstraction and message routing (src/midi.cpp)

    A shallow embedding of [src/midi.cpp]: the driver registry, the
    Input/Output devices with their subscriber sets, the ports with their
    driver/device/channel binding, the JSON persistence of a port and the
    bounded input queue.

    Conventions of the embedding.
    - C++ [int] values are [Z]; the two narrowing conversions of the file
      ([(int) queue.size()], [json_int_t] to [int]) are written out as
      [to_int], the conversion to [uint8_t] as [to_uint8].
    - Objects live in heaps indexed by their address ([positive]); a null
      pointer is [None].  Dereferencing a null or dangling pointer and
      indexing an empty [std::vector] are undefined behaviour of the C++
      program: the embedding returns [Fault] there.
    - A driver call that throws [Exception] returns [Throws]; every
      [try]/[catch] of the source is a [match] on that result.  The text
      sent to [WARN] is not part of the state.
    - The timestamp of a message is a floating-point number of the source
      ([msg.timestamp == 0.0]); it is a [spec_float] here and the comparison
      is the IEEE one ([SFeqb]). *)

From Stdlib Require Import ZArith Lia Bool.
From Stdlib Require Import Floats.SpecFloat.
From stdpp Require Import base option gmap sets list sorting strings pretty.

Local Open Scope Z_scope.

(** ** Machine integers *)

(** Conversion of an integer value to a 32-bit [int] (two's complement). *)
Definition to_int (z : Z) : Z := (z + 2 ^ 31) mod 2 ^ 32 - 2 ^ 31.

(** Conversion of an integer value to [uint8_t]. *)
Definition to_uint8 (z : Z) : Z := z mod 256.

Definition int_range (z : Z) : Prop := - 2 ^ 31 <= z < 2 ^ 31.
Definition uint8_range (z : Z) : Prop := 0 <= z < 256.

(** ** Message (midi.hpp) *)

(** Modelled from the spec: [struct Message] is declared in [midi.hpp],
    which is not among the sources.  The spec gives its fields: one byte
    holding the status nibble (high) and the channel nibble (low), two data
    bytes and a timestamp whose value 0 means "unset". *)
Record Message := mkMessage {
  statusAndChannel : Z;
  data1 : Z;
  data2 : Z;
  timestamp : spec_float
}.

(** Modelled from the spec: the accessors of [Message] ([midi.hpp]); the
    status is the high nibble of the first byte, the channel its low
    nibble, and [setChannel] replaces the low nibble by the low nibble of
    its [uint8_t] argument. *)
Definition getStatus (m : Message) : Z := Z.shiftr (statusAndChannel m) 4.

Definition getChannel (m : Message) : Z := Z.land (statusAndChannel m) 0xf.

Definition setChannel (channel : Z) (m : Message) : Message :=
  {| statusAndChannel :=
       Z.lor (Z.land (statusAndChannel m) 0xf0) (Z.land (to_uint8 channel) 0xf);
     data1 := data1 m;
     data2 := data2 m;
     timestamp := timestamp m |}.

Definition set_timestamp (t : spec_float) (m : Message) : Message :=
  {| statusAndChannel := statusAndChannel m;
     data1 := data1 m;
     data2 := data2 m;
     timestamp := t |}.

(** [x == 0.0] on floating-point numbers: true of both zeros, false of NaN. *)
Definition is_zero_time (t : spec_float) : bool := SFeqb t (S754_zero false).

(** A message as the driver can build it: three bytes. *)
Definition wf_message (m : Message) : Prop :=
  uint8_range (statusAndChannel m) /\ uint8_range (data1 m) /\ uint8_range (data2 m).

(** ** Pointers, undefined behaviour and exceptions *)

(** Addresses of [Port] objects ([Input*], [Output*]) and of [Driver]
    objects.  A [Device*] is the pair of the owning driver's address and the
    id under which that driver holds the device. *)
Abbreviation PortPtr := positive (only parsing).
Abbreviation DriverPtr := positive (only parsing).
Abbreviation DevicePtr := (positive * Z)%type (only parsing).

(** The value captured by [contextGet()] and installed by [contextSet()]. *)
Abbreviation Context := nat (only parsing).

(** Result of running a piece of the program: [Done] with its result, or
    [Fault] when the C++ program has no defined continuation (null or
    dangling dereference, [drivers[0]] on an empty vector, a failed
    [assert]). *)
Inductive outcome (A : Type) : Type :=
  | Done (a : A)
  | Fault.
Arguments Done {A} a.
Arguments Fault {A}.

Definition bind {A B : Type} (m : outcome A) (k : A -> outcome B) : outcome B :=
  match m with
  | Done a => k a
  | Fault => Fault
  end.

Notation "'let!' x ':=' m 'in' k" := (bind m (fun x => k))
  (at level 10, x name, m at level 100, k at level 200).

Definition deref {A : Type} (o : option A) : outcome A :=
  match o with
  | Some a => Done a
  | None => Fault
  end.

(** Result of a call into a driver: it returns, or it throws [Exception]. *)
Inductive thrown (A : Type) : Type :=
  | Returns (a : A)
  | Throws.
Arguments Returns {A} a.
Arguments Throws {A}.

(** ** Device (midi.cpp, lines 19-55) *)

(** [InputDevice] and [OutputDevice]: the [std::set] of subscribed ports,
    and the name that the virtual [getName()] reports (implemented by the
    drivers; the spec calls it the device's current name). *)
Record Device := mkDevice {
  dev_name : string;
  subscribed : gset positive
}.

Definition Device_getName (dev : Device) : string := dev_name dev.

Definition InputDevice_subscribe (input : PortPtr) (dev : Device) : Device :=
  {| dev_name := dev_name dev; subscribed := {[input]} ∪ subscribed dev |}.

Definition InputDevice_unsubscribe (input : PortPtr) (dev : Device) : Device :=
  if decide (input ∈ subscribed dev)
  then {| dev_name := dev_name dev; subscribed := subscribed dev ∖ {[input]} |}
  else dev.

Definition OutputDevice_subscribe (output : PortPtr) (dev : Device) : Device :=
  {| dev_name := dev_name dev; subscribed := {[output]} ∪ subscribed dev |}.

Definition OutputDevice_unsubscribe (output : PortPtr) (dev : Device) : Device :=
  if decide (output ∈ subscribed dev)
  then {| dev_name := dev_name dev; subscribed := subscribed dev ∖ {[output]} |}
  else dev.

(** ** Driver (external capability) *)

(** Modelled from the spec: [Driver] is an abstract interface whose
    implementations are not among the sources.  Following section 4.2 of
    the spec a driver enumerates device ids, names a device, and subscribes
    or unsubscribes a port by calling the device's own [subscribe] or
    [unsubscribe]; each operation may fail with a device error.  The model
    holds, per direction, the result of the enumeration, the table of the
    devices the driver holds and names, and the ids on which its subscribe
    and its unsubscribe fail.  Naming an id outside the table throws;
    subscribing to or unsubscribing from an id outside the table, or one on
    which the operation fails, throws, before anything is changed.  So a
    driver may name a device it cannot open, and may fail to unsubscribe a
    port that is subscribed. *)
Record Driver := mkDriver {
  inputDeviceIds : thrown (list Z);
  inputDevices : gmap Z Device;
  inputSubscribeThrows : gset Z;
  inputUnsubscribeThrows : gset Z;
  outputDeviceIds : thrown (list Z);
  outputDevices : gmap Z Device;
  outputSubscribeThrows : gset Z;
  outputUnsubscribeThrows : gset Z
}.

(** Modelled from the spec: the enumeration of a driver's devices
    ([getInputDeviceIds], [getOutputDeviceIds]). *)
Definition Driver_getInputDeviceIds (drv : Driver) : thrown (list Z) :=
  inputDeviceIds drv.

Definition Driver_getOutputDeviceIds (drv : Driver) : thrown (list Z) :=
  outputDeviceIds drv.

(** Modelled from the spec: the name a driver gives to a device id
    ([getInputDeviceName], [getOutputDeviceName]); it is the name the device
    itself reports. *)
Definition Driver_getInputDeviceName (drv : Driver) (deviceId : Z) : thrown string :=
  match inputDevices drv !! deviceId with
  | Some dev => Returns (Device_getName dev)
  | None => Throws
  end.

Definition Driver_getOutputDeviceName (drv : Driver) (deviceId : Z) : thrown string :=
  match outputDevices drv !! deviceId with
  | Some dev => Returns (Device_getName dev)
  | None => Throws
  end.

Definition set_inputDevices (tbl : gmap Z Device) (drv : Driver) : Driver :=
  {| inputDeviceIds := inputDeviceIds drv; inputDevices := tbl;
     inputSubscribeThrows := inputSubscribeThrows drv;
     inputUnsubscribeThrows := inputUnsubscribeThrows drv;
     outputDeviceIds := outputDeviceIds drv; outputDevices := outputDevices drv;
     outputSubscribeThrows := outputSubscribeThrows drv;
     outputUnsubscribeThrows := outputUnsubscribeThrows drv |}.

Definition set_outputDevices (tbl : gmap Z Device) (drv : Driver) : Driver :=
  {| inputDeviceIds := inputDeviceIds drv; inputDevices := inputDevices drv;
     inputSubscribeThrows := inputSubscribeThrows drv;
     inputUnsubscribeThrows := inputUnsubscribeThrows drv;
     outputDeviceIds := outputDeviceIds drv; outputDevices := tbl;
     outputSubscribeThrows := outputSubscribeThrows drv;
     outputUnsubscribeThrows := outputUnsubscribeThrows drv |}.

(** Modelled from the spec: [subscribeInput], [unsubscribeInput],
    [subscribeOutput] and [unsubscribeOutput] of a driver.  When they do
    not fail they register the port with the device, or remove it, through
    the device's own [subscribe] and [unsubscribe]; the handle a
    subscription returns is the id under which the driver holds the
    device. *)
Definition Driver_subscribeInput (drv : Driver) (deviceId : Z) (input : PortPtr)
  : thrown (Z * Driver) :=
  if decide (deviceId ∈ inputSubscribeThrows drv) then Throws
  else
    match inputDevices drv !! deviceId with
    | Some dev =>
        Returns (deviceId,
                 set_inputDevices (<[deviceId := InputDevice_subscribe input dev]> (inputDevices drv)) drv)
    | None => Throws
    end.

Definition Driver_unsubscribeInput (drv : Driver) (deviceId : Z) (input : PortPtr)
  : thrown Driver :=
  if decide (deviceId ∈ inputUnsubscribeThrows drv) then Throws
  else
    match inputDevices drv !! deviceId with
    | Some dev =>
        Returns (set_inputDevices (<[deviceId := InputDevice_unsubscribe input dev]> (inputDevices drv)) drv)
    | None => Throws
    end.

Definition Driver_subscribeOutput (drv : Driver) (deviceId : Z) (output : PortPtr)
  : thrown (Z * Driver) :=
  if decide (deviceId ∈ outputSubscribeThrows drv) then Throws
  else
    match outputDevices drv !! deviceId with
    | Some dev =>
        Returns (deviceId,
                 set_outputDevices (<[deviceId := OutputDevice_subscribe output dev]> (outputDevices drv)) drv)
    | None => Throws
    end.

Definition Driver_unsubscribeOutput (drv : Driver) (deviceId : Z) (output : PortPtr)
  : thrown Driver :=
  if decide (deviceId ∈ outputUnsubscribeThrows drv) then Throws
  else
    match outputDevices drv !! deviceId with
    | Some dev =>
        Returns (set_outputDevices (<[deviceId := OutputDevice_unsubscribe output dev]> (outputDevices drv)) drv)
    | None => Throws
    end.

(** ** The driver registry (midi.cpp, lines 13 and 337-367) *)

(** [addDriver]: [assert(driver)], then [push_back]. *)
Definition addDriver (driverId : Z) (driver : option DriverPtr)
    (drivers : list (Z * positive)) : outcome (list (Z * positive)) :=
  match driver with
  | Some d => Done (drivers ++ [(driverId, d)])
  | None => Fault
  end.

Definition getDriverIds (drivers : list (Z * positive)) : list Z :=
  map fst drivers.

(** [getDriver]: the first pair with the id, else [NULL]. *)
Fixpoint getDriver (drivers : list (Z * positive)) (driverId : Z) : option DriverPtr :=
  match drivers with
  | [] => None
  | entry :: rest =>
      if decide (entry.1 = driverId) then Some entry.2 else getDriver rest driverId
  end.

(** ** Port objects and the program state *)

(** The dynamic class of a [Port] object; it selects the overrides of the
    virtual [setDeviceId], [getDeviceIds] and [getDeviceName]. *)
Inductive PortClass : Type :=
  | IsInput
  | IsOutput.

(** The members of [Port], with [inputDevice] of [Input] and [outputDevice]
    of [Output]; an object only uses the one of its own class. *)
Record Port := mkPort {
  vptr : PortClass;
  context : nat;
  driverId : Z;
  deviceId : Z;
  channel : Z;
  driver : option positive;
  device : option (positive * Z);
  inputDevice : option (positive * Z);
  outputDevice : option (positive * Z)
}.

(** The static [drivers] vector, the [Driver] objects and the [Port]
    objects of the process. *)
Record World := mkWorld {
  drivers : list (Z * positive);
  driverHeap : gmap positive Driver;
  ports : gmap positive Port
}.

Definition set_port (this : PortPtr) (p : Port) (w : World) : World :=
  {| drivers := drivers w; driverHeap := driverHeap w;
     ports := <[this := p]> (ports w) |}.

Definition set_driver (d : DriverPtr) (drv : Driver) (w : World) : World :=
  {| drivers := drivers w; driverHeap := <[d := drv]> (driverHeap w);
     ports := ports w |}.

(** [device = inputDevice = dev; this->deviceId = id]. *)
Definition Input_assign_device (dev : option DevicePtr) (id : Z) (p : Port) : Port :=
  {| vptr := vptr p; context := context p; driverId := driverId p;
     deviceId := id; channel := channel p; driver := driver p;
     device := dev; inputDevice := dev; outputDevice := outputDevice p |}.

(** [device = outputDevice = dev; this->deviceId = id]. *)
Definition Output_assign_device (dev : option DevicePtr) (id : Z) (p : Port) : Port :=
  {| vptr := vptr p; context := context p; driverId := driverId p;
     deviceId := id; channel := channel p; driver := driver p;
     device := dev; inputDevice := inputDevice p; outputDevice := dev |}.

(** [driver = drv; this->driverId = id]. *)
Definition assign_driver (drv : option DriverPtr) (id : Z) (p : Port) : Port :=
  {| vptr := vptr p; context := context p; driverId := id;
     deviceId := deviceId p; channel := channel p; driver := drv;
     device := device p; inputDevice := inputDevice p;
     outputDevice := outputDevice p |}.

Definition Port_getDriver (p : Port) : option DriverPtr := driver p.
Definition Port_getDriverId (p : Port) : Z := driverId p.
Definition Port_getDevice (p : Port) : option DevicePtr := device p.
Definition Port_getDeviceId (p : Port) : Z := deviceId p.
Definition Port_getChannel (p : Port) : Z := channel p.

(** [Port::setChannel]: [this->channel = channel], nothing is checked. *)
Definition Port_setChannel (c : Z) (p : Port) : Port :=
  {| vptr := vptr p; context := context p; driverId := driverId p;
     deviceId := deviceId p; channel := c; driver := driver p;
     device := device p; inputDevice := inputDevice p;
     outputDevice := outputDevice p |}.

(** ** Input and Output (midi.cpp, lines 174-221 and 255-330) *)

Definition Input_getDeviceIds (w : World) (self : Port) : outcome (list Z) :=
  match driver self with
  | None => Done []
  | Some d =>
      let! drv := deref (driverHeap w !! d) in
      match Driver_getInputDeviceIds drv with
      | Returns ids => Done ids
      | Throws => Done []
      end
  end.

Definition Output_getDeviceIds (w : World) (self : Port) : outcome (list Z) :=
  match driver self with
  | None => Done []
  | Some d =>
      let! drv := deref (driverHeap w !! d) in
      match Driver_getOutputDeviceIds drv with
      | Returns ids => Done ids
      | Throws => Done []
      end
  end.

Definition Input_setDeviceId (this : PortPtr) (deviceId' : Z) (w : World)
  : outcome World :=
  let! self := deref (ports w !! this) in
  (* Destroy device *)
  let! w1 :=
    match driver self with
    | Some d =>
        if decide (0 <= deviceId self) then
          let! drv := deref (driverHeap w !! d) in
          match Driver_unsubscribeInput drv (deviceId self) this with
          | Returns drv' => Done (set_driver d drv' w)
          | Throws => Done w
          end
        else Done w
    | None => Done w
    end in
  let w2 := set_port this (Input_assign_device None (-1) self) w1 in
  (* Create device *)
  match driver self with
  | Some d =>
      if decide (0 <= deviceId') then
        let! drv := deref (driverHeap w2 !! d) in
        match Driver_subscribeInput drv deviceId' this with
        | Returns (dev, drv') =>
            Done (set_port this (Input_assign_device (Some (d, dev)) deviceId' self)
                    (set_driver d drv' w2))
        | Throws => Done w2
        end
      else Done w2
  | None => Done w2
  end.

Definition Output_setDeviceId (this : PortPtr) (deviceId' : Z) (w : World)
  : outcome World :=
  let! self := deref (ports w !! this) in
  (* Destroy device *)
  let! w1 :=
    match driver self with
    | Some d =>
        if decide (0 <= deviceId self) then
          let! drv := deref (driverHeap w !! d) in
          match Driver_unsubscribeOutput drv (deviceId self) this with
          | Returns drv' => Done (set_driver d drv' w)
          | Throws => Done w
          end
        else Done w
    | None => Done w
    end in
  let w2 := set_port this (Output_assign_device None (-1) self) w1 in
  (* Create device *)
  match driver self with
  | Some d =>
      if decide (0 <= deviceId') then
        let! drv := deref (driverHeap w2 !! d) in
        match Driver_subscribeOutput drv deviceId' this with
        | Returns (dev, drv') =>
            Done (set_port this (Output_assign_device (Some (d, dev)) deviceId' self)
                    (set_driver d drv' w2))
        | Throws => Done w2
        end
      else Done w2
  | None => Done w2
  end.

(** [Input::getDeviceName]: the empty string without a driver, and when the
    driver throws. *)
Definition Input_getDeviceName (w : World) (self : Port) (deviceId' : Z)
  : outcome string :=
  match driver self with
  | None => Done ""%string
  | Some d =>
      let! drv := deref (driverHeap w !! d) in
      match Driver_getInputDeviceName drv deviceId' with
      | Returns s => Done s
      | Throws => Done ""%string
      end
  end.

(** [Output::getDeviceName]: the test of the source is [if (driver)], so the
    empty string is returned with a driver, and without one the call goes
    through the null [driver]. *)
Definition Output_getDeviceName (w : World) (self : Port) (deviceId' : Z)
  : outcome string :=
  match driver self with
  | Some _ => Done ""%string
  | None =>
      let! drv := (Fault : outcome Driver) in
      match Driver_getOutputDeviceName drv deviceId' with
      | Returns s => Done s
      | Throws => Done ""%string
      end
  end.

(** [Output::sendMessage]: [None] when nothing is sent, else the device and
    the message passed to [outputDevice->sendMessage]; what that call throws
    is caught and dropped. *)
Definition Output_sendMessage (self : Port) (message : Message)
  : option ((positive * Z) * Message) :=
  match outputDevice self with
  | None => None
  | Some dev =>
      let msg :=
        if bool_decide (getStatus message <> 0xf) && bool_decide (0 <= channel self)
        then setChannel (channel self) message
        else message in
      Some (dev, msg)
  end.

Definition Input_getChannels : list Z := map (fun c => Z.of_nat c - 1) (seq 0 17).
Definition Output_getChannels : list Z := map Z.of_nat (seq 0 16).

(** ** Port (midi.cpp, lines 61-155) *)

(** The virtual calls made from [Port]'s own methods. *)
Definition Port_setDeviceId (this : PortPtr) (deviceId' : Z) (w : World)
  : outcome World :=
  let! self := deref (ports w !! this) in
  match vptr self with
  | IsInput => Input_setDeviceId this deviceId' w
  | IsOutput => Output_setDeviceId this deviceId' w
  end.

Definition Port_getDeviceIds (w : World) (self : Port) : outcome (list Z) :=
  match vptr self with
  | IsInput => Input_getDeviceIds w self
  | IsOutput => Output_getDeviceIds w self
  end.

Definition Port_getDeviceName (w : World) (self : Port) (deviceId' : Z)
  : outcome string :=
  match vptr self with
  | IsInput => Input_getDeviceName w self deviceId'
  | IsOutput => Output_getDeviceName w self deviceId'
  end.

Definition Port_setDriverId (this : PortPtr) (driverId' : Z) (w : World)
  : outcome World :=
  (* Unset device and driver *)
  let! w1 := Port_setDeviceId this (-1) w in
  let! self := deref (ports w1 !! this) in
  let self := assign_driver None (-1) self in
  (* Find driver by ID *)
  match getDriver (drivers w1) driverId' with
  | Some d => Done (set_port this (assign_driver (Some d) driverId' self) w1)
  | None =>
      (* Set first driver as default *)
      match drivers w1 with
      | first :: _ => Done (set_port this (assign_driver (Some first.2) first.1 self) w1)
      | [] => Fault
      end
  end.

(** [Input::reset] and [Output::reset], which the constructors call. *)
Definition Input_reset (this : PortPtr) (w : World) : outcome World :=
  let! w := Port_setDriverId this (-1) w in
  let! self := deref (ports w !! this) in
  Done (set_port this (Port_setChannel (-1) self) w).

Definition Output_reset (this : PortPtr) (w : World) : outcome World :=
  let! w := Port_setDriverId this (-1) w in
  let! self := deref (ports w !! this) in
  Done (set_port this (Port_setChannel 0 self) w).

(** *** JSON (the part of jansson used by [toJson] and [fromJson]) *)

Inductive json_t : Type :=
  | JInteger (z : Z)
  | JString (s : string).

(** [json_integer_value]: 0 on a value that is not an integer. *)
Definition json_integer_value (j : json_t) : Z :=
  match j with
  | JInteger z => z
  | JString _ => 0
  end.

(** [json_string_value]: [NULL] on a value that is not a string.  The
    string values of the records considered hold no NUL byte, as
    [json_string] makes them, so that the C string read back is the whole
    value. *)
Definition json_string_value (j : json_t) : option string :=
  match j with
  | JString s => Some s
  | JInteger _ => None
  end.

(** [std::string::c_str()] read as a C string: the bytes before the first
    NUL. *)
Fixpoint c_str (s : string) : string :=
  match s with
  | EmptyString => EmptyString
  | String c rest =>
      if Ascii.eqb c Ascii.zero then EmptyString else String c (c_str rest)
  end.

Definition byte_value (c : Ascii.ascii) : Z := Z.of_N (Ascii.N_of_ascii c).

(** The UTF-8 check of jansson ([utf8_check_first], [utf8_check_full] and
    [utf8_check_string] of its utf8.c).  [utf8_check_first] gives the
    length of the sequence a byte starts, 0 for a byte that starts none. *)
Definition utf8_check_first (u : Z) : nat :=
  if decide (u < 0x80) then 1%nat
  else if decide (u <= 0xBF) then 0%nat
  else if decide (u = 0xC0 \/ u = 0xC1) then 0%nat
  else if decide (u <= 0xDF) then 2%nat
  else if decide (u <= 0xEF) then 3%nat
  else if decide (u <= 0xF4) then 4%nat
  else 0%nat.

(** [utf8_check_full] on a first byte [u] and the [size - 1] bytes after
    it: they are continuation bytes, and the code point is not above
    0x10FFFF, not a surrogate half and not encoded overlong. *)
Definition utf8_check_full (size : nat) (u : Z) (rest : list Z) : bool :=
  match (match size with
         | 2%nat => Some (Z.land u 0x1F)
         | 3%nat => Some (Z.land u 0xF)
         | 4%nat => Some (Z.land u 0x7)
         | _ => None
         end) with
  | None => false
  | Some first =>
      let value :=
        fold_left (fun value u => Z.shiftl value 6 + Z.land u 0x3F) rest first in
      forallb (fun u => bool_decide (0x80 <= u <= 0xBF)) rest
      && negb (bool_decide (0x10FFFF < value))
      && negb (bool_decide (0xD800 <= value <= 0xDFFF))
      && negb (bool_decide ((size = 2%nat /\ value < 0x80)
                            \/ (size = 3%nat /\ value < 0x800)
                            \/ (size = 4%nat /\ value < 0x10000)))
  end.

Fixpoint utf8_check_string (s : string) : bool :=
  match s with
  | EmptyString => true
  | String c0 rest =>
      match utf8_check_first (byte_value c0) with
      | 1%nat => utf8_check_string rest
      | 2%nat =>
          match rest with
          | String c1 rest =>
              utf8_check_full 2 (byte_value c0) [byte_value c1]
              && utf8_check_string rest
          | _ => false
          end
      | 3%nat =>
          match rest with
          | String c1 (String c2 rest) =>
              utf8_check_full 3 (byte_value c0) [byte_value c1; byte_value c2]
              && utf8_check_string rest
          | _ => false
          end
      | 4%nat =>
          match rest with
          | String c1 (String c2 (String c3 rest)) =>
              utf8_check_full 4 (byte_value c0)
                [byte_value c1; byte_value c2; byte_value c3]
              && utf8_check_string rest
          | _ => false
          end
      | _ => false
      end
  end.

(** [json_string] on a C string: [NULL] when the bytes are not valid
    UTF-8. *)
Definition json_string (value : string) : option json_t :=
  if utf8_check_string value then Some (JString value) else None.

(** [json_object_set_new]: a [NULL] value sets no key (the call returns -1,
    which [toJson] does not look at). *)
Definition json_object_set_new (object : gmap string json_t) (key : string)
    (value : option json_t) : gmap string json_t :=
  match value with
  | Some v => <[key := v]> object
  | None => object
  end.

(** [device->getName()] through the port's [Device*]. *)
Definition device_at (w : World) (cls : PortClass) (dev : DevicePtr) : outcome Device :=
  let! drv := deref (driverHeap w !! dev.1) in
  match cls with
  | IsInput => deref (inputDevices drv !! dev.2)
  | IsOutput => deref (outputDevices drv !! dev.2)
  end.

Definition Port_toJson (w : World) (self : Port) : outcome (gmap string json_t) :=
  let rootJ : gmap string json_t :=
    json_object_set_new ∅ "driver" (Some (JInteger (Port_getDriverId self))) in
  let! rootJ :=
    match device self with
    | Some dev =>
        let! d := device_at w (vptr self) dev in
        let deviceName := Device_getName d in
        if decide (deviceName = ""%string) then Done rootJ
        else Done (json_object_set_new rootJ "deviceName" (json_string (c_str deviceName)))
    | None => Done rootJ
    end in
  Done (json_object_set_new rootJ "channel" (Some (JInteger (Port_getChannel self)))).

(** The loop of [fromJson]: the first enumerated id whose name is
    [deviceName]. *)
Fixpoint find_device (w : World) (self : Port) (deviceName : string) (ids : list Z)
  : outcome (option Z) :=
  match ids with
  | [] => Done None
  | deviceId' :: rest =>
      let! n := Port_getDeviceName w self deviceId' in
      if decide (n = deviceName) then Done (Some deviceId')
      else find_device w self deviceName rest
  end.

Definition Port_fromJson (this : PortPtr) (rootJ : gmap string json_t) (w : World)
  : outcome World :=
  let! w := Port_setDriverId this (-1) w in
  let! w :=
    match rootJ !! "driver"%string with
    | Some driverJ => Port_setDriverId this (to_int (json_integer_value driverJ)) w
    | None => Done w
    end in
  let! self := deref (ports w !! this) in
  let! w :=
    match driver self with
    | Some _ =>
        match rootJ !! "deviceName"%string with
        | Some deviceNameJ =>
            let! deviceName := deref (json_string_value deviceNameJ) in
            (* Search for device ID with equal name *)
            let! ids := Port_getDeviceIds w self in
            let! found := find_device w self deviceName ids in
            match found with
            | Some deviceId' => Port_setDeviceId this deviceId' w
            | None => Done w
            end
        | None => Done w
        end
    | None => Done w
    end in
  let! self := deref (ports w !! this) in
  match rootJ !! "channel"%string with
  | Some channelJ =>
      Done (set_port this (Port_setChannel (to_int (json_integer_value channelJ)) self) w)
  | None => Done w
  end.

(** ** InputDevice::onMessage (midi.cpp, lines 30-45) *)

(** What the fan-out does to the rest of the program, in order. *)
Inductive Call : Type :=
  | ContextSet (c : nat)
  | OnMessage (input : positive) (msg : Message).

(** The body of the [for] loop, over the subscribers in iteration order. *)
Fixpoint fan_out (ps : gmap positive Port) (msg : Message) (subs : list positive)
  : outcome (list Call) :=
  match subs with
  | [] => Done []
  | input :: rest =>
      let! p := deref (ps !! input) in
      let! calls := fan_out ps msg rest in
      (* Filter channel if message is not a system MIDI message *)
      if bool_decide (getStatus msg <> 0xf) && bool_decide (0 <= channel p)
         && bool_decide (getChannel msg <> channel p)
      then Done (ContextSet (context p) :: calls)
      else Done (ContextSet (context p) :: OnMessage input msg :: calls)
  end.

(** The iteration order of [std::set<Input*>]: ascending addresses. *)
Definition set_order (s : gset positive) : list positive :=
  merge_sort Pos.le (elements s).

(** [now] is the value [system::getTime()] returns when it is called. *)
Definition InputDevice_onMessage (now : spec_float) (ps : gmap positive Port)
    (dev : Device) (message : Message) : outcome (list Call) :=
  (* Set timestamp to now if unset *)
  let msg :=
    if is_zero_time (timestamp message) then set_timestamp now message
    else message in
  fan_out ps msg (set_order (subscribed dev)).

(** ** InputQueue (midi.cpp, lines 231-236) *)

(** The members [InputQueue] adds to [Input]. *)
Record InputQueue := mkInputQueue {
  queueMaxSize : Z;
  queue : list Message
}.

Definition InputQueue_onMessage (message : Message) (q : InputQueue) : InputQueue :=
  if decide (to_int (Z.of_nat (length (queue q))) >= queueMaxSize q) then q
  else
    (* Push to queue *)
    {| queueMaxSize := queueMaxSize q; queue := queue q ++ [message] |}.

(** A sequence of deliveries to the queue. *)
Definition InputQueue_run (messages : list Message) (q : InputQueue) : InputQueue :=
  fold_left (fun q m => InputQueue_onMessage m q) messages q.

(** ** The rest of midi.cpp *)

(** [Port::getChannelName].  Modelled from the spec: [string::f] is the
    printf-style formatting of [string.hpp], which is not among the
    sources; ["Channel %d"] gives the 1-based label "Channel N" with N in
    decimal.  The sum [channel + 1] is an [int] sum: it has no defined
    value at the largest [int]. *)
Definition Port_getChannelName (channel : Z) : outcome string :=
  if decide (channel < 0) then Done "All channels"%string
  else if decide (channel + 1 < 2 ^ 31)
       then Done ("Channel " +:+ pretty (channel + 1))
       else Fault.

(** [~Input()] and [~Output()]: [setDriverId(-1)], after which the object
    is gone. *)
Definition Input_destructor (this : PortPtr) (w : World) : outcome World :=
  let! w := Port_setDriverId this (-1) w in
  Done {| drivers := drivers w; driverHeap := driverHeap w;
          ports := delete this (ports w) |}.

Definition Output_destructor (this : PortPtr) (w : World) : outcome World :=
  let! w := Port_setDriverId this (-1) w in
  Done {| drivers := drivers w; driverHeap := driverHeap w;
          ports := delete this (ports w) |}.

(** The loop of [midi::destroy]: [delete pair.second] for every registered
    pair, in order; deleting an object that is gone already is undefined. *)
Fixpoint delete_drivers (entries : list (Z * positive))
    (heap : gmap positive Driver) : outcome (gmap positive Driver) :=
  match entries with
  | [] => Done heap
  | entry :: rest =>
      match heap !! entry.2 with
      | Some _ => delete_drivers rest (delete entry.2 heap)
      | None => Fault
      end
  end.

(** [midi::destroy]: the loop, then [drivers.clear()]. *)
Definition destroy (w : World) : outcome World :=
  let! heap := delete_drivers (drivers w) (driverHeap w) in
  Done {| drivers := []; driverHeap := heap; ports := ports w |}.

(** The ports whose handler a list of calls runs, in the order of the
    calls. *)
Definition receivers (calls : list Call) : list positive :=
  omap (fun c => match c with
                 | OnMessage input _ => Some input
                 | ContextSet _ => None
                 end) calls.

(** The test of the fan-out on one subscriber address: the port is live and
    the [continue] is not taken. *)
Definition accepts (ps : gmap positive Port) (msg : Message) (input : positive)
  : bool :=
  match ps !! input with
  | Some p =>
      negb (bool_decide (getStatus msg <> 0xf) && bool_decide (0 <= channel p)
            && bool_decide (getChannel msg <> channel p))
  | None => false
  end.

(** ** The two halves of [setDeviceId], by class

    [Input::setDeviceId] and [Output::setDeviceId] are the same text up to
    the direction of the driver calls.  The two halves below take the class
    as an argument; [Port_setDeviceId_phases] shows that the virtual call
    is their composition. *)

Definition devices_of (cls : PortClass) (drv : Driver) : gmap Z Device :=
  match cls with
  | IsInput => inputDevices drv
  | IsOutput => outputDevices drv
  end.

(** The ids on which the driver's subscribe, and its unsubscribe, fail in
    the direction of a class. *)
Definition subscribe_throws (cls : PortClass) (drv : Driver) : gset Z :=
  match cls with
  | IsInput => inputSubscribeThrows drv
  | IsOutput => outputSubscribeThrows drv
  end.

Definition unsubscribe_throws (cls : PortClass) (drv : Driver) : gset Z :=
  match cls with
  | IsInput => inputUnsubscribeThrows drv
  | IsOutput => outputUnsubscribeThrows drv
  end.

Definition Driver_subscribe (cls : PortClass) (drv : Driver) (deviceId' : Z)
    (port : PortPtr) : thrown (Z * Driver) :=
  match cls with
  | IsInput => Driver_subscribeInput drv deviceId' port
  | IsOutput => Driver_subscribeOutput drv deviceId' port
  end.

Definition Driver_unsubscribe (cls : PortClass) (drv : Driver) (deviceId' : Z)
    (port : PortPtr) : thrown Driver :=
  match cls with
  | IsInput => Driver_unsubscribeInput drv deviceId' port
  | IsOutput => Driver_unsubscribeOutput drv deviceId' port
  end.

Definition assign_device (cls : PortClass) (dev : option DevicePtr) (id : Z)
    (p : Port) : Port :=
  match cls with
  | IsInput => Input_assign_device dev id p
  | IsOutput => Output_assign_device dev id p
  end.

Definition with_devices (cls : PortClass) (tbl : gmap Z Device) (drv : Driver)
  : Driver :=
  match cls with
  | IsInput => set_inputDevices tbl drv
  | IsOutput => set_outputDevices tbl drv
  end.

(** The part under the comment "Destroy device". *)
Definition destroy_device (cls : PortClass) (this : PortPtr) (self : Port)
    (w : World) : outcome World :=
  match driver self with
  | Some d =>
      if decide (0 <= deviceId self) then
        let! drv := deref (driverHeap w !! d) in
        match Driver_unsubscribe cls drv (deviceId self) this with
        | Returns drv' => Done (set_driver d drv' w)
        | Throws => Done w
        end
      else Done w
  | None => Done w
  end.

(** The part under the comment "Create device". *)
Definition create_device (cls : PortClass) (this : PortPtr) (deviceId' : Z)
    (self : Port) (w2 : World) : outcome World :=
  match driver self with
  | Some d =>
      if decide (0 <= deviceId') then
        let! drv := deref (driverHeap w2 !! d) in
        match Driver_subscribe cls drv deviceId' this with
        | Returns (dev, drv') =>
            Done (set_port this (assign_device cls (Some (d, dev)) deviceId' self)
                    (set_driver d drv' w2))
        | Throws => Done w2
        end
      else Done w2
  | None => Done w2
  end.

(** ** The device block of [fromJson]

    The [if (driver) { ... }] block of [Port::fromJson], on the port as it
    is after the driver has been set; [Port_fromJson_blocks] shows that
    [Port_fromJson] runs it between the driver and the channel. *)
Definition restore_device (this : PortPtr) (rootJ : gmap string json_t)
    (self : Port) (w : World) : outcome World :=
  match driver self with
  | Some _ =>
      match rootJ !! "deviceName"%string with
      | Some deviceNameJ =>
          let! deviceName := deref (json_string_value deviceNameJ) in
          let! ids := Port_getDeviceIds w self in
          let! found := find_device w self deviceName ids in
          match found with
          | Some deviceId' => Port_setDeviceId this deviceId' w
          | None => Done w
          end
      | None => Done w
      end
  | None => Done w
  end.

(** ** Predicates of the statements *)

(** The negation of the [continue] test of [InputDevice::onMessage]. *)
Definition passes_filter (p : Port) (msg : Message) : Prop :=
  getStatus msg = 0xf \/ channel p < 0 \/ getChannel msg = channel p.

(** The handler of [input] is called at least once in a list of calls. *)
Definition invoked (input : PortPtr) (calls : list Call) : Prop :=
  exists msg, OnMessage input msg ∈ calls.

(** Port [this] is in the subscriber set of the device that driver [d]
    holds under [id], in the direction of class [cls]. *)
Definition subscribed_to (w : World) (cls : PortClass) (this : PortPtr)
    (d : DriverPtr) (id : Z) : Prop :=
  exists drv dev,
    driverHeap w !! d = Some drv /\ devices_of cls drv !! id = Some dev
    /\ this ∈ subscribed dev.

(** The invariant that links a port to the devices: the port is a
    subscriber of exactly the device it has bound. *)
Definition binding_consistent (w : World) (this : PortPtr) (self : Port) : Prop :=
  forall d id,
    subscribed_to w (vptr self) this d id
    <-> driver self = Some d /\ deviceId self = id /\ 0 <= id.

(** What a driver reports and never changes by a subscription: its
    enumerations and the names of its devices; with them, the ids on which
    its subscribe and unsubscribe fail. *)
Definition static_driver (drv : Driver)
  : thrown (list Z) * gmap Z string * thrown (list Z) * gmap Z string
    * (gset Z * gset Z * gset Z * gset Z) :=
  (inputDeviceIds drv, dev_name <$> inputDevices drv,
   outputDeviceIds drv, dev_name <$> outputDevices drv,
   (inputSubscribeThrows drv, inputUnsubscribeThrows drv,
    outputSubscribeThrows drv, outputUnsubscribeThrows drv)).

Definition static_world (w : World)
  : list (Z * positive)
    * gmap positive (thrown (list Z) * gmap Z string * thrown (list Z) * gmap Z string
                     * (gset Z * gset Z * gset Z * gset Z)) :=
  (drivers w, static_driver <$> driverHeap w).

(** The driver and the driver id that [setDriverId(id)] stores: those of
    the id when it is registered, else those of the first registered pair. *)
Definition resolve_driver (drivers : list (Z * positive)) (id : Z)
  : option (positive * Z) :=
  match getDriver drivers id with
  | Some d => Some (d, id)
  | None =>
      match drivers with
      | first :: _ => Some (first.2, first.1)
      | [] => None
      end
  end.

(** The first id of an enumeration that a table of names maps to [n]. *)
Fixpoint first_named (names : gmap Z string) (n : string) (ids : list Z)
  : option Z :=
  match ids with
  | [] => None
  | id :: rest =>
      if decide (names !! id = Some n) then Some id else first_named names n rest
  end.

(** The port can run [setDeviceId]: the driver it may have to unsubscribe
    from is a live object. *)
Definition driver_live (w : World) (self : Port) : Prop :=
  forall d, driver self = Some d -> 0 <= deviceId self -> is_Some (driverHeap w !! d).

(** No device of any driver has a subscriber. *)
Definition no_subscribers (w : World) : Prop :=
  map_Forall (fun (_ : positive) (drv : Driver) =>
      map_Forall (fun (_ : Z) (dev : Device) => subscribed dev = ∅) (inputDevices drv)
      /\ map_Forall (fun (_ : Z) (dev : Device) => subscribed dev = ∅) (outputDevices drv))
    (driverHeap w).

(** Every registered driver is a live object. *)
Definition registry_live (w : World) : Prop :=
  Forall (fun entry : Z * positive => is_Some (driverHeap w !! entry.2)) (drivers w).

(** The device that [setDeviceId(id)] opens: the one that the driver of the
    port holds under [id], when there is a driver, [id] is not negative,
    the driver's subscribe does not fail on [id] and the driver holds such
    a device. *)
Definition opened_device (w : World) (self : Port) (id : Z) : option (positive * Z) :=
  match driver self with
  | Some d =>
      if decide (0 <= id) then
        match driverHeap w !! d with
        | Some drv =>
            if decide (id ∈ subscribe_throws (vptr self) drv) then None
            else
              match devices_of (vptr self) drv !! id with
              | Some _ => Some (d, id)
              | None => None
              end
        | None => None
        end
      else None
  | None => None
  end.

(** The device that [setDeviceId] closes first: the one the port has bound,
    when the driver's unsubscribe does not fail on it. *)
Definition closed_device (w : World) (self : Port) : option (positive * Z) :=
  match driver self with
  | Some d =>
      if decide (0 <= deviceId self) then
        match driverHeap w !! d with
        | Some drv =>
            if decide (deviceId self ∈ unsubscribe_throws (vptr self) drv) then None
            else
              match devices_of (vptr self) drv !! deviceId self with
              | Some _ => Some (d, deviceId self)
              | None => None
              end
        | None => None
        end
      else None
  | None => None
  end.

(** The driver's unsubscribe does not fail on the device the port has
    bound. *)
Definition unsubscribe_returns (w : World) (self : Port) : Prop :=
  forall d drv,
    driver self = Some d -> 0 <= deviceId self -> driverHeap w !! d = Some drv ->
    deviceId self ∉ unsubscribe_throws (vptr self) drv.


(** The id that goes with a device pointer in a port: that of the device,
    or -1 without a device. *)
Definition device_id_of (dev : option (positive * Z)) : Z :=
  match dev with
  | Some (_, id) => id
  | None => -1
  end.

(** Port [other] is the same object, and a subscriber of the same devices,
    in two states. *)
Definition same_for (other : PortPtr) (w w' : World) : Prop :=
  ports w' !! other = ports w !! other
  /\ forall cls d k, subscribed_to w' cls other d k <-> subscribed_to w cls other d k.

(** The driver id and the channel that [fromJson] reads from a record. *)
Definition saved_driver_id (rootJ : gmap string json_t) : Z :=
  match rootJ !! "driver"%string with
  | Some driverJ => to_int (json_integer_value driverJ)
  | None => -1
  end.

Definition saved_channel (rootJ : gmap string json_t) (self : Port) : Z :=
  match rootJ !! "channel"%string with
  | Some channelJ => to_int (json_integer_value channelJ)
  | None => channel self
  end.

(** ** Sample objects

    Concrete messages, ports and program states on which the statements
    below are evaluated. *)

(** A note-on message (status 9) on channel [ch], not yet timestamped. *)
Definition note_on (ch : Z) : Message :=
  {| statusAndChannel := Z.lor 0x90 ch; data1 := 60; data2 := 100;
     timestamp := S754_zero false |}.

(** A reading of the clock: 3.0 as a binary64 number. *)
Definition three_seconds : spec_float :=
  S754_finite false 6755399441055744 (-51).

(** An output port of driver 10 with channel [ch], bound to [dev] under [id]. *)
Definition output_port (ch : Z) (id : Z) (dev : option (positive * Z)) : Port :=
  {| vptr := IsOutput; context := 0%nat; driverId := 1; deviceId := id;
     channel := ch; driver := Some 10%positive; device := dev;
     inputDevice := None; outputDevice := dev |}.

(** An input port of driver 10 with channel filter [ch], bound to [dev]
    under [id]. *)
Definition input_port (ch : Z) (id : Z) (dev : option (positive * Z)) : Port :=
  {| vptr := IsInput; context := 7%nat; driverId := 1; deviceId := id;
     channel := ch; driver := Some 10%positive; device := dev;
     inputDevice := dev; outputDevice := None |}.

(** Two input ports, one listening to all channels and one to channel 4,
    both subscribed to the device "Keys". *)
Definition sample_inputs : gmap positive Port :=
  {[ 1%positive := input_port (-1) 0 (Some (10%positive, 0));
     3%positive := input_port 4 0 (Some (10%positive, 0)) ]}.

Definition sample_keys : Device :=
  {| dev_name := "Keys"; subscribed := {[ 1%positive; 3%positive ]} |}.

(** A driver with three input devices, two of them of the same name, and
    one output device; and a driver without devices. *)
Definition sample_driver : Driver :=
  {| inputDeviceIds := Returns [0; 1; 2];
     inputDevices := {[ 0 := {| dev_name := "Keys"; subscribed := ∅ |};
                        1 := {| dev_name := "Pads"; subscribed := ∅ |};
                        2 := {| dev_name := "Pads"; subscribed := ∅ |} ]};
     inputSubscribeThrows := ∅;
     inputUnsubscribeThrows := ∅;
     outputDeviceIds := Returns [0];
     outputDevices := {[ 0 := {| dev_name := "Synth"; subscribed := ∅ |} ]};
     outputSubscribeThrows := ∅;
     outputUnsubscribeThrows := ∅ |}.

Definition empty_driver : Driver :=
  {| inputDeviceIds := Returns []; inputDevices := ∅;
     inputSubscribeThrows := ∅; inputUnsubscribeThrows := ∅;
     outputDeviceIds := Returns []; outputDevices := ∅;
     outputSubscribeThrows := ∅; outputUnsubscribeThrows := ∅ |}.

(** Two registered drivers; an input port (address 1) and an output port
    (address 2) as their constructors leave them: bound to the first driver
    and to no device. *)
Definition sample_world : World :=
  {| drivers := [(1, 10%positive); (2, 20%positive)];
     driverHeap := {[ 10%positive := sample_driver; 20%positive := empty_driver ]};
     ports := {[ 1%positive := input_port (-1) (-1) None;
                 2%positive := output_port 0 (-1) None ]} |}.

(** The same state after the input port has bound device 0. *)
Definition sample_bound_world : World :=
  {| drivers := [(1, 10%positive); (2, 20%positive)];
     driverHeap :=
       {[ 10%positive :=
            set_inputDevices
              (<[0 := {| dev_name := "Keys"; subscribed := {[ 1%positive ]} |}]>
                 (inputDevices sample_driver))
              sample_driver;
          20%positive := empty_driver ]};
     ports := {[ 1%positive := input_port (-1) 0 (Some (10%positive, 0));
                 2%positive := output_port 0 (-1) None ]} |}.


(** The state of [sample_world] with a driver whose subscribe fails on
    input device 0. *)
Definition sample_closed_world : World :=
  {| drivers := [(1, 10%positive); (2, 20%positive)];
     driverHeap :=
       {[ 10%positive :=
            {| inputDeviceIds := Returns [0; 1; 2];
               inputDevices := inputDevices sample_driver;
               inputSubscribeThrows := {[ 0 ]};
               inputUnsubscribeThrows := ∅;
               outputDeviceIds := Returns [0];
               outputDevices := outputDevices sample_driver;
               outputSubscribeThrows := ∅;
               outputUnsubscribeThrows := ∅ |};
          20%positive := empty_driver ]};
     ports := {[ 1%positive := input_port (-1) (-1) None;
                 2%positive := output_port 0 (-1) None ]} |}.

(** The state of [sample_world] with input device 0 named "Caf" followed
    by the byte 0xE9, an "e" with an acute accent in Latin-1: bytes that are
    not UTF-8. *)
Definition sample_latin_world : World :=
  {| drivers := [(1, 10%positive); (2, 20%positive)];
     driverHeap :=
       {[ 10%positive :=
            set_inputDevices
              (<[0 := {| dev_name := "Caf" +:+ String (Ascii.ascii_of_nat 233) "";
                         subscribed := ∅ |}]>
                 (inputDevices sample_driver))
              sample_driver;
          20%positive := empty_driver ]};
     ports := {[ 1%positive := input_port (-1) (-1) None;
                 2%positive := output_port 0 (-1) None ]} |}.

(** The record [toJson] writes for that input port. *)
Definition sample_record : gmap string json_t :=
  {[ "driver"%string := JInteger 1;
     "deviceName"%string := JString "Keys";
     "channel"%string := JInteger (-1) ]}.

(** * Properties *)

(** ** Machine integers and message bits *)

Lemma to_int_id z : int_range z -> to_int z = z.
Proof.
  unfold int_range, to_int. intros H.
  rewrite Z.mod_small; lia.
Qed.

Lemma to_uint8_id z : uint8_range z -> to_uint8 z = z.
Proof. unfold uint8_range, to_uint8. intros H. apply Z.mod_small. lia. Qed.

Lemma land_0xf z : Z.land z 0xf = z mod 16.
Proof. change 0xf with (Z.ones 4). now rewrite Z.land_ones by lia. Qed.

Lemma getChannel_range m : 0 <= getChannel m < 16.
Proof. unfold getChannel. rewrite land_0xf. apply Z.mod_pos_bound. lia. Qed.

Lemma getChannel_setChannel c m :
  getChannel (setChannel c m) = to_uint8 c mod 16.
Proof.
  unfold getChannel, setChannel; simpl.
  rewrite Z.land_lor_distr_l, <- !Z.land_assoc.
  change (Z.land 0xf0 0xf) with 0. change (Z.land 0xf 0xf) with 0xf.
  rewrite Z.land_0_r, Z.lor_0_l. apply land_0xf.
Qed.

Lemma getChannel_setChannel_nibble c m :
  0 <= c < 16 -> getChannel (setChannel c m) = c.
Proof.
  intros H. rewrite getChannel_setChannel, to_uint8_id by (unfold uint8_range; lia).
  apply Z.mod_small; lia.
Qed.

(** [setChannel] leaves the four high bits of the first byte alone. *)
Lemma high_nibble_setChannel c m :
  Z.land (statusAndChannel (setChannel c m)) 0xf0 = Z.land (statusAndChannel m) 0xf0.
Proof.
  unfold setChannel; simpl.
  rewrite Z.land_lor_distr_l, <- !Z.land_assoc.
  change (Z.land 0xf0 0xf0) with 0xf0. change (Z.land 0xf 0xf0) with 0.
  now rewrite Z.land_0_r, Z.lor_0_r.
Qed.

Lemma getStatus_setChannel c m :
  wf_message m -> getStatus (setChannel c m) = getStatus m.
Proof.
  intros [[H0 H1] _]. unfold getStatus, setChannel; simpl.
  rewrite Z.shiftr_lor, !Z.shiftr_land.
  change (Z.shiftr 0xf 4) with 0. change (Z.shiftr 0xf0 4) with 0xf.
  rewrite Z.land_0_r, Z.lor_0_r, land_0xf.
  apply Z.mod_small. rewrite Z.shiftr_div_pow2 by lia.
  change (2 ^ 4) with 16. split.
  - apply Z.div_pos; lia.
  - apply Z.div_lt_upper_bound; lia.
Qed.

(** The channels a port offers: -1 and 0..15 for an input, 0..15 for an
    output. *)
Lemma Input_getChannels_domain c : c ∈ Input_getChannels <-> -1 <= c <= 15.
Proof.
  let l := eval vm_compute in Input_getChannels in
  change Input_getChannels with l.
  rewrite !elem_of_cons, elem_of_nil. lia.
Qed.

Lemma Output_getChannels_domain c : c ∈ Output_getChannels <-> 0 <= c <= 15.
Proof.
  let l := eval vm_compute in Output_getChannels in
  change Output_getChannels with l.
  rewrite !elem_of_cons, elem_of_nil. lia.
Qed.

Lemma three_seconds_valid : valid_binary 53 1024 three_seconds = true.
Proof. reflexivity. Qed.

(** ** The driver registry *)

Lemma getDriver_app drivers1 drivers2 id :
  getDriver (drivers1 ++ drivers2) id =
  match getDriver drivers1 id with
  | Some d => Some d
  | None => getDriver drivers2 id
  end.
Proof.
  induction drivers1 as [|[i d] rest IH]; simpl; [done|].
  case_decide; [done | apply IH].
Qed.

Lemma getDriver_None drivers id :
  getDriver drivers id = None <-> id ∉ getDriverIds drivers.
Proof.
  unfold getDriverIds. induction drivers as [|[i d] rest IH]; simpl.
  - split; [intros _; apply not_elem_of_nil | done].
  - rewrite not_elem_of_cons. case_decide; simplify_eq/=.
    + split; [done | intros [? _]; done].
    + rewrite IH. split; [intros ?; split; [congruence | done] | intros [_ ?]; done].
Qed.

Lemma getDriver_Some drivers id d :
  getDriver drivers id = Some d <->
  exists before after,
    drivers = before ++ (id, d) :: after /\ id ∉ getDriverIds before.
Proof.
  split.
  - induction drivers as [|[i d'] rest IH]; simpl; [done|].
    case_decide; simplify_eq/=.
    + intros [= ->]. exists [], rest. split; [done | apply not_elem_of_nil].
    + intros Hrest. destruct (IH Hrest) as (before & after & -> & Hnot).
      exists ((i, d') :: before), after. split; [done|].
      unfold getDriverIds in *; simpl. rewrite not_elem_of_cons. split; [congruence | done].
  - intros (before & after & -> & Hnot). rewrite getDriver_app.
    apply getDriver_None in Hnot. rewrite Hnot. simpl.
    case_decide; [done | congruence].
Qed.

(** After [addDriver] an id that was already registered still resolves to
    its earlier driver. *)
Lemma getDriver_addDriver drivers drivers' id0 d0 id :
  addDriver id0 (Some d0) drivers = Done drivers' ->
  getDriver drivers' id =
  match getDriver drivers id with
  | Some d => Some d
  | None => if decide (id0 = id) then Some d0 else None
  end.
Proof.
  intros [= <-]. rewrite getDriver_app. simpl. done.
Qed.

Lemma getDriverIds_addDriver drivers drivers' id0 d0 :
  addDriver id0 (Some d0) drivers = Done drivers' ->
  getDriverIds drivers' = getDriverIds drivers ++ [id0].
Proof. intros [= <-]. unfold getDriverIds. now rewrite map_app. Qed.

(** C9.  In every state of the registry, [getDriver id] returns a driver
    exactly when a registered pair has this id; the driver returned is the
    one of the earliest such pair, and the result is null exactly when no
    registered pair has the id. *)
Theorem getDriver_earliest_registered (drivers : list (Z * positive)) (id : Z) :
  (is_Some (getDriver drivers id) <-> id ∈ getDriverIds drivers)
  /\ (forall d, getDriver drivers id = Some d <->
        exists before after,
          drivers = before ++ (id, d) :: after /\ id ∉ getDriverIds before)
  /\ (getDriver drivers id = None <-> id ∉ getDriverIds drivers).
Proof.
  split; [|split].
  - rewrite <- not_eq_None_Some, getDriver_None.
    split; [apply dec_stable | intros H Hn; done].
  - intros d. apply getDriver_Some.
  - apply getDriver_None.
Qed.

(** ** InputQueue *)

Lemma InputQueue_onMessage_max m q :
  queueMaxSize (InputQueue_onMessage m q) = queueMaxSize q.
Proof. unfold InputQueue_onMessage. now case_decide. Qed.

Lemma InputQueue_onMessage_full m q :
  int_range (queueMaxSize q) ->
  Z.of_nat (length (queue q)) = queueMaxSize q ->
  InputQueue_onMessage m q = q.
Proof.
  intros Hmax Hlen. unfold InputQueue_onMessage.
  rewrite to_int_id by (unfold int_range in *; lia).
  case_decide; [done | lia].
Qed.

Lemma InputQueue_onMessage_room m q :
  int_range (queueMaxSize q) ->
  Z.of_nat (length (queue q)) < queueMaxSize q ->
  queue (InputQueue_onMessage m q) = queue q ++ [m].
Proof.
  intros Hmax Hlen. unfold InputQueue_onMessage.
  rewrite to_int_id by (unfold int_range in *; lia).
  case_decide; [lia | done].
Qed.

Lemma InputQueue_onMessage_bounded m q :
  int_range (queueMaxSize q) ->
  Z.of_nat (length (queue q)) <= queueMaxSize q ->
  Z.of_nat (length (queue (InputQueue_onMessage m q))) <= queueMaxSize q.
Proof.
  intros Hmax Hlen.
  destruct (decide (Z.of_nat (length (queue q)) = queueMaxSize q)) as [Heq|Hne].
  - now rewrite InputQueue_onMessage_full.
  - rewrite InputQueue_onMessage_room by (done || lia).
    rewrite length_app. simpl. lia.
Qed.

Lemma InputQueue_run_max messages q :
  queueMaxSize (InputQueue_run messages q) = queueMaxSize q.
Proof.
  unfold InputQueue_run. revert q.
  induction messages as [|m rest IH]; intros q; simpl; [done|].
  now rewrite IH, InputQueue_onMessage_max.
Qed.

(** C7.  With a maximum size N (an [int]) and a queue that holds at most N
    messages, the queue holds at most N messages after any sequence of
    [onMessage] calls, and a call that arrives while the queue holds N
    messages leaves the queue as it was. *)
Theorem InputQueue_never_exceeds_max (q : InputQueue) (messages : list Message)
    (m : Message) :
  int_range (queueMaxSize q) ->
  Z.of_nat (length (queue q)) <= queueMaxSize q ->
  queueMaxSize (InputQueue_run messages q) = queueMaxSize q
  /\ Z.of_nat (length (queue (InputQueue_run messages q))) <= queueMaxSize q
  /\ (Z.of_nat (length (queue (InputQueue_run messages q))) = queueMaxSize q ->
      InputQueue_onMessage m (InputQueue_run messages q) = InputQueue_run messages q).
Proof.
  intros Hmax Hlen. split; [apply InputQueue_run_max|]. split.
  - unfold InputQueue_run. revert q Hmax Hlen.
    induction messages as [|m' rest IH]; intros q Hmax Hlen; simpl; [done|].
    pose proof (InputQueue_onMessage_max m' q) as Hsame.
    pose proof (InputQueue_onMessage_bounded m' q Hmax Hlen) as Hb.
    specialize (IH (InputQueue_onMessage m' q)).
    fold (InputQueue_run rest (InputQueue_onMessage m' q)) in IH |- *.
    rewrite Hsame in IH. apply IH; done.
  - intros Hfull. apply InputQueue_onMessage_full.
    + now rewrite InputQueue_run_max.
    + now rewrite InputQueue_run_max.
Qed.

Lemma InputQueue_never_exceeds_max_witness :
  let q := {| queueMaxSize := 2; queue := [] |} in
  let messages := [note_on 0; note_on 1; note_on 2] in
  queueMaxSize (InputQueue_run messages q) = 2
  /\ Z.of_nat (length (queue (InputQueue_run messages q))) <= 2
  /\ (Z.of_nat (length (queue (InputQueue_run messages q))) = 2 ->
      InputQueue_onMessage (note_on 3) (InputQueue_run messages q)
      = InputQueue_run messages q).
Proof.
  apply (InputQueue_never_exceeds_max {| queueMaxSize := 2; queue := [] |}
           [note_on 0; note_on 1; note_on 2] (note_on 3)).
  - unfold int_range; simpl; lia.
  - simpl; lia.
Defined.

(** ** Output::sendMessage *)

Lemma Output_sendMessage_unbound self m :
  outputDevice self = None -> Output_sendMessage self m = None.
Proof. unfold Output_sendMessage. now intros ->. Qed.

(** C3.  [sendMessage] does nothing when no device is bound.  When a device
    is bound and the channel of the port is in 0..15, the device is sent a
    copy of the message whose channel nibble is the port's channel (status
    nibble, data bytes and timestamp as in the message) if the status nibble
    is not 0xF, and the message itself if it is. *)
Theorem Output_sendMessage_stamps_channel (self : Port) (m : Message) :
  (outputDevice self = None -> Output_sendMessage self m = None)
  /\ (forall dev, outputDevice self = Some dev -> 0 <= channel self <= 15 ->
        exists msg, Output_sendMessage self m = Some (dev, msg)
          /\ (getStatus m <> 0xf ->
                getChannel msg = channel self
                /\ Z.land (statusAndChannel msg) 0xf0 = Z.land (statusAndChannel m) 0xf0
                /\ (wf_message m -> getStatus msg = getStatus m)
                /\ data1 msg = data1 m /\ data2 msg = data2 m
                /\ timestamp msg = timestamp m)
          /\ (getStatus m = 0xf -> msg = m)).
Proof.
  split; [apply Output_sendMessage_unbound|].
  intros dev Hdev Hch. unfold Output_sendMessage. rewrite Hdev.
  eexists; split; [reflexivity|]. split.
  - intros Hst. rewrite bool_decide_true by done.
    rewrite bool_decide_true by lia. simpl.
    split; [apply getChannel_setChannel_nibble; lia|].
    split; [apply high_nibble_setChannel|].
    split; [apply getStatus_setChannel | done].
  - intros Hst. rewrite bool_decide_false by (intros Hn; done). done.
Qed.

Lemma Output_sendMessage_stamps_channel_witness :
  exists msg,
    Output_sendMessage (output_port 5 0 (Some (10%positive, 0))) (note_on 2)
    = Some ((10%positive, 0), msg)
    /\ getChannel msg = 5.
Proof.
  destruct (Output_sendMessage_stamps_channel
              (output_port 5 0 (Some (10%positive, 0))) (note_on 2)) as [_ H].
  destruct (H (10%positive, 0) eq_refl ltac:(vm_compute; split; discriminate))
    as (msg & Hsend & Hch & _).
  exists msg. split; [exact Hsend|].
  apply Hch. vm_compute. discriminate.
Defined.

(** C10.  [setChannel] stores any value.  After a negative one, a bound
    output port forwards a message to its device as it is: the channel is
    only overwritten when the port's channel is at least 0. *)
Theorem Output_sendMessage_negative_channel (self : Port) (c : Z) (m : Message)
    (dev : positive * Z) :
  c < 0 ->
  outputDevice self = Some dev ->
  channel (Port_setChannel c self) = c
  /\ Output_sendMessage (Port_setChannel c self) m = Some (dev, m).
Proof.
  intros Hc Hdev. split; [done|].
  unfold Output_sendMessage; simpl. rewrite Hdev.
  rewrite (bool_decide_false (0 <= c)) by lia.
  now rewrite andb_false_r.
Qed.

Lemma Output_sendMessage_negative_channel_witness :
  channel (Port_setChannel (-1) (output_port 5 0 (Some (10%positive, 0)))) = -1
  /\ Output_sendMessage (Port_setChannel (-1) (output_port 5 0 (Some (10%positive, 0))))
       (note_on 2)
     = Some ((10%positive, 0), note_on 2).
Proof.
  apply (Output_sendMessage_negative_channel
           (output_port 5 0 (Some (10%positive, 0))) (-1) (note_on 2) (10%positive, 0)).
  - lia.
  - reflexivity.
Defined.

(** ** InputDevice::onMessage *)

Lemma fan_out_total ps msg subs :
  (forall i, i ∈ subs -> is_Some (ps !! i)) ->
  exists calls, fan_out ps msg subs = Done calls.
Proof.
  induction subs as [|i rest IH]; intros Hlive; simpl; [by eexists|].
  destruct (Hlive i) as [p Hp]; [apply elem_of_cons; by left|].
  destruct IH as [calls Hcalls]; [intros j Hj; apply Hlive, elem_of_cons; by right|].
  rewrite Hp, Hcalls. simpl. case_match; by eexists.
Qed.

Lemma filter_test_false p msg :
  bool_decide (getStatus msg <> 0xf) && bool_decide (0 <= channel p)
    && bool_decide (getChannel msg <> channel p) = false
  <-> passes_filter p msg.
Proof.
  unfold passes_filter. rewrite !andb_false_iff, !bool_decide_eq_false.
  split.
  - intros [[H|H]|H].
    + left. by apply dec_stable.
    + right; left. lia.
    + right; right. by apply dec_stable.
  - intros [H|[H|H]].
    + left; left. intros Hn; done.
    + left; right. lia.
    + right. intros Hn; done.
Qed.

(** Which handlers the loop calls, and with what. *)
Lemma fan_out_OnMessage ps msg subs calls i msg' :
  fan_out ps msg subs = Done calls ->
  OnMessage i msg' ∈ calls <->
  msg' = msg /\ i ∈ subs /\ exists p, ps !! i = Some p /\ passes_filter p msg.
Proof.
  revert calls. induction subs as [|j rest IH]; intros calls; simpl.
  - intros [= <-]. split.
    + intros H. by apply elem_of_nil in H.
    + intros (_ & H & _). by apply elem_of_nil in H.
  - destruct (ps !! j) as [q|] eqn:Hq; simpl; [|done].
    destruct (fan_out ps msg rest) as [calls'|] eqn:Hrest; simpl; [|done].
    specialize (IH calls' eq_refl).
    destruct (bool_decide (getStatus msg <> 0xf) && bool_decide (0 <= channel q)
              && bool_decide (getChannel msg <> channel q)) eqn:Htest;
      intros [= <-]; rewrite !elem_of_cons, IH.
    + assert (~ passes_filter q msg) as Hno
        by (rewrite <- filter_test_false, Htest; done).
      split.
      * intros [H|H]; [done|]. destruct H as (-> & Hin & p & Hp & Hpass).
        split; [done|]. split; [by right|]. by exists p.
      * intros (-> & [->|Hin] & p & Hp & Hpass).
        -- rewrite Hq in Hp. by simplify_eq.
        -- right. split; [done|]. split; [done|]. by exists p.
    + apply filter_test_false in Htest. split.
      * intros [H|[H|H]]; [done| |].
        -- simplify_eq. split; [done|]. split; [by left|]. by exists q.
        -- destruct H as (-> & Hin & p & Hp & Hpass).
           split; [done|]. split; [by right|]. by exists p.
      * intros (-> & [->|Hin] & p & Hp & Hpass).
        -- right; by left.
        -- right; right. split; [done|]. split; [done|]. by exists p.
Qed.

Lemma stamped_status now m :
  getStatus (if is_zero_time (timestamp m) then set_timestamp now m else m)
  = getStatus m.
Proof. by destruct (is_zero_time (timestamp m)). Qed.

Lemma stamped_channel now m :
  getChannel (if is_zero_time (timestamp m) then set_timestamp now m else m)
  = getChannel m.
Proof. by destruct (is_zero_time (timestamp m)). Qed.

Lemma elem_of_set_order i s : i ∈ set_order s <-> i ∈ s.
Proof. unfold set_order. by rewrite merge_sort_Permutation, elem_of_elements. Qed.

Lemma InputDevice_onMessage_total now ps dev m :
  subscribed dev ⊆ dom ps ->
  exists calls, InputDevice_onMessage now ps dev m = Done calls.
Proof.
  intros Hlive. apply fan_out_total. intros i Hi.
  apply elem_of_dom, Hlive. by apply elem_of_set_order.
Qed.

Lemma InputDevice_onMessage_invoked now ps dev m calls input p :
  InputDevice_onMessage now ps dev m = Done calls ->
  input ∈ subscribed dev -> ps !! input = Some p ->
  invoked input calls <-> passes_filter p m.
Proof.
  unfold InputDevice_onMessage, invoked. intros Hcalls Hin Hp.
  assert (passes_filter p
            (if is_zero_time (timestamp m) then set_timestamp now m else m)
          <-> passes_filter p m) as Hsame.
  { unfold passes_filter. by rewrite stamped_status, stamped_channel. }
  split.
  - intros [msg' Hmsg]. rewrite (fan_out_OnMessage _ _ _ _ _ _ Hcalls) in Hmsg.
    destruct Hmsg as (_ & _ & q & Hq & Hpass). rewrite Hp in Hq. simplify_eq.
    by apply Hsame.
  - intros Hpass. eexists. rewrite (fan_out_OnMessage _ _ _ _ _ _ Hcalls).
    split; [done|]. split; [by apply elem_of_set_order|].
    exists p. split; [done|]. by apply Hsame.
Qed.

(** C1.  In a fan-out over live subscribers, for a subscribed input port
    whose channel filter c is at least -1: a system message (status nibble
    0xF) reaches the handler whatever c is; any other message reaches it
    exactly when c = -1 or c is the channel of the message, and never when
    c >= 0 and the channel of the message differs from c. *)
Theorem InputDevice_onMessage_channel_filter (now : spec_float)
    (ps : gmap positive Port) (dev : Device) (m : Message) :
  subscribed dev ⊆ dom ps ->
  exists calls,
    InputDevice_onMessage now ps dev m = Done calls
    /\ forall input p,
         input ∈ subscribed dev -> ps !! input = Some p -> -1 <= channel p ->
         (getStatus m = 0xf -> invoked input calls)
         /\ (getStatus m <> 0xf ->
               (invoked input calls <-> channel p = -1 \/ channel p = getChannel m))
         /\ (getStatus m <> 0xf -> 0 <= channel p -> getChannel m <> channel p ->
               ~ invoked input calls).
Proof.
  intros Hlive.
  destruct (InputDevice_onMessage_total now ps dev m Hlive) as [calls Hcalls].
  exists calls. split; [done|]. intros input p Hin Hp Hdom.
  pose proof (InputDevice_onMessage_invoked _ _ _ _ _ _ _ Hcalls Hin Hp) as Hiff.
  unfold passes_filter in Hiff. rewrite Hiff. split; [|split].
  - intros Hsys. by left.
  - intros Hst. split.
    + intros [H|[H|H]]; [done | left; lia | by right].
    + intros [H|H]; right; [left; lia | by right].
  - intros Hst Hc Hne [H|[H|H]]; [done | lia | done].
Qed.

Lemma InputDevice_onMessage_channel_filter_witness :
  exists calls,
    InputDevice_onMessage (S754_zero false) sample_inputs sample_keys (note_on 2)
    = Done calls
    /\ invoked 1%positive calls /\ ~ invoked 3%positive calls.
Proof.
  destruct (InputDevice_onMessage_channel_filter (S754_zero false) sample_inputs
              sample_keys (note_on 2)) as (calls & Hcalls & Hfilter).
  { apply (bool_decide_unpack _). vm_compute. exact I. }
  exists calls. split; [exact Hcalls|]. split.
  - destruct (Hfilter 1%positive (input_port (-1) 0 (Some (10%positive, 0))))
      as (_ & Hiff & _).
    + apply (bool_decide_unpack _). vm_compute. exact I.
    + reflexivity.
    + simpl. lia.
    + apply Hiff; [vm_compute; discriminate | left; reflexivity].
  - destruct (Hfilter 3%positive (input_port 4 0 (Some (10%positive, 0))))
      as (_ & _ & Hnot).
    + apply (bool_decide_unpack _). vm_compute. exact I.
    + reflexivity.
    + simpl. lia.
    + apply Hnot; [vm_compute; discriminate | simpl; lia | vm_compute; discriminate].
Defined.

(** The timestamp of every message handed to a handler. *)
Lemma InputDevice_onMessage_delivers now ps dev m calls input msg :
  InputDevice_onMessage now ps dev m = Done calls ->
  OnMessage input msg ∈ calls ->
  msg = (if is_zero_time (timestamp m) then set_timestamp now m else m).
Proof.
  unfold InputDevice_onMessage. intros Hcalls Hmsg.
  rewrite (fan_out_OnMessage _ _ _ _ _ _ Hcalls) in Hmsg. by destruct Hmsg.
Qed.

(** C8, as the code has it.  A message whose timestamp is 0 reaches every
    handler that is called with its timestamp replaced by the reading of the
    clock, which is non-zero whenever that reading is; a message whose
    timestamp is not 0 reaches the handlers as it is. *)
Theorem InputDevice_onMessage_timestamp (now : spec_float)
    (ps : gmap positive Port) (dev : Device) (m : Message) :
  subscribed dev ⊆ dom ps ->
  exists calls,
    InputDevice_onMessage now ps dev m = Done calls
    /\ forall input msg, OnMessage input msg ∈ calls ->
         (is_zero_time (timestamp m) = true ->
            msg = set_timestamp now m
            /\ (is_zero_time now = false -> is_zero_time (timestamp msg) = false))
         /\ (is_zero_time (timestamp m) = false -> msg = m).
Proof.
  intros Hlive.
  destruct (InputDevice_onMessage_total now ps dev m Hlive) as [calls Hcalls].
  exists calls. split; [done|]. intros input msg Hmsg.
  rewrite (InputDevice_onMessage_delivers _ _ _ _ _ _ _ Hcalls Hmsg).
  split; intros ->; [|done]. split; [done|]. simpl. by intros H.
Qed.

Lemma InputDevice_onMessage_timestamp_witness :
  exists calls,
    InputDevice_onMessage three_seconds sample_inputs sample_keys (note_on 4)
    = Done calls
    /\ forall input msg, OnMessage input msg ∈ calls ->
         msg = set_timestamp three_seconds (note_on 4)
         /\ is_zero_time (timestamp msg) = false.
Proof.
  destruct (InputDevice_onMessage_timestamp three_seconds sample_inputs
              sample_keys (note_on 4)) as (calls & Hcalls & Hstamp).
  { apply (bool_decide_unpack _). vm_compute. exact I. }
  exists calls. split; [exact Hcalls|].
  intros input msg Hmsg. destruct (Hstamp input msg Hmsg) as [Hzero _].
  destruct (Hzero eq_refl) as [Heq Hnz]. split; [exact Heq|].
  apply Hnz. reflexivity.
Defined.

(** Counterexample to C8 as stated: when the clock reads 0 the message is
    handed over with a timestamp that is still 0. *)
Lemma InputDevice_onMessage_timestamp_zero_clock :
  is_zero_time (timestamp (note_on 2)) = true
  /\ InputDevice_onMessage (S754_zero false) sample_inputs sample_keys (note_on 2)
     = Done [ContextSet 7; OnMessage 1%positive (note_on 2); ContextSet 7]
  /\ ~ (forall input msg,
          OnMessage input msg
            ∈ [ContextSet 7; OnMessage 1%positive (note_on 2); ContextSet 7] ->
          is_zero_time (timestamp msg) = false).
Proof.
  split; [reflexivity|]. split; [vm_compute; reflexivity|].
  intros H. specialize (H 1%positive (note_on 2)).
  assert (is_zero_time (timestamp (note_on 2)) = false) as Hz.
  { apply H. apply elem_of_cons; right. apply elem_of_cons; by left. }
  discriminate Hz.
Qed.

(** ** Subscriptions: devices and drivers *)

Lemma InputDevice_unsubscribe_gone this dev :
  this ∉ subscribed (InputDevice_unsubscribe this dev).
Proof.
  unfold InputDevice_unsubscribe.
  destruct (decide (this ∈ subscribed dev)); simpl; [|done].
  rewrite elem_of_difference, elem_of_singleton. by intros [_ ?].
Qed.

Lemma InputDevice_subscribe_elem this other dev :
  other ∈ subscribed (InputDevice_subscribe this dev)
  <-> other = this \/ other ∈ subscribed dev.
Proof. unfold InputDevice_subscribe; simpl. set_solver. Qed.

Lemma InputDevice_unsubscribe_name this dev :
  dev_name (InputDevice_unsubscribe this dev) = dev_name dev.
Proof.
  unfold InputDevice_unsubscribe. by destruct (decide (this ∈ subscribed dev)).
Qed.

Lemma devices_of_with_devices cls tbl drv :
  devices_of cls (with_devices cls tbl drv) = tbl.
Proof. by destruct cls. Qed.

Lemma Driver_unsubscribe_Returns cls drv id this dev :
  id ∉ unsubscribe_throws cls drv ->
  devices_of cls drv !! id = Some dev ->
  Driver_unsubscribe cls drv id this
  = Returns (with_devices cls
               (<[id := InputDevice_unsubscribe this dev]> (devices_of cls drv)) drv).
Proof.
  destruct cls; simpl; intros Hok Hdev;
    unfold Driver_unsubscribeInput, Driver_unsubscribeOutput;
    rewrite decide_False by done; by rewrite Hdev.
Qed.

Lemma Driver_unsubscribe_Throws cls drv id this :
  id ∈ unsubscribe_throws cls drv \/ devices_of cls drv !! id = None ->
  Driver_unsubscribe cls drv id this = Throws.
Proof.
  destruct cls; simpl; intros Hdev;
    unfold Driver_unsubscribeInput, Driver_unsubscribeOutput;
    (destruct (decide _) as [|Hok]; [done|]);
    (destruct Hdev as [Hin|Hdev]; [done | by rewrite Hdev]).
Qed.

Lemma Driver_subscribe_Returns cls drv id this dev :
  id ∉ subscribe_throws cls drv ->
  devices_of cls drv !! id = Some dev ->
  Driver_subscribe cls drv id this
  = Returns (id, with_devices cls
                   (<[id := InputDevice_subscribe this dev]> (devices_of cls drv)) drv).
Proof.
  destruct cls; simpl; intros Hok Hdev;
    unfold Driver_subscribeInput, Driver_subscribeOutput;
    rewrite decide_False by done; by rewrite Hdev.
Qed.

Lemma Driver_subscribe_Throws cls drv id this :
  id ∈ subscribe_throws cls drv \/ devices_of cls drv !! id = None ->
  Driver_subscribe cls drv id this = Throws.
Proof.
  destruct cls; simpl; intros Hdev;
    unfold Driver_subscribeInput, Driver_subscribeOutput;
    (destruct (decide _) as [|Hok]; [done|]);
    (destruct Hdev as [Hin|Hdev]; [done | by rewrite Hdev]).
Qed.

(** Replacing a device by one of the same name changes nothing a driver
    reports. *)
Lemma static_driver_update cls drv id dev dev' :
  devices_of cls drv !! id = Some dev ->
  dev_name dev' = dev_name dev ->
  static_driver (with_devices cls (<[id := dev']> (devices_of cls drv)) drv)
  = static_driver drv.
Proof.
  intros Hdev Hname.
  assert (forall tbl : gmap Z Device, tbl !! id = Some dev ->
            dev_name <$> <[id := dev']> tbl = dev_name <$> tbl) as Hfmap.
  { intros tbl Htbl. rewrite fmap_insert. apply insert_id.
    by rewrite lookup_fmap, Htbl, Hname. }
  destruct cls; unfold static_driver; simpl in *; by rewrite Hfmap.
Qed.

Lemma static_world_set_port this p w :
  static_world (set_port this p w) = static_world w.
Proof. done. Qed.

Lemma static_world_set_driver d drv drv' w :
  driverHeap w !! d = Some drv ->
  static_driver drv' = static_driver drv ->
  static_world (set_driver d drv' w) = static_world w.
Proof.
  intros Hd Hstatic. unfold static_world; simpl. f_equal.
  rewrite fmap_insert. apply insert_id. by rewrite lookup_fmap, Hd, Hstatic.
Qed.

Lemma static_world_drivers w w' :
  static_world w' = static_world w -> drivers w' = drivers w.
Proof. unfold static_world. by intros [? _]%pair_equal_spec. Qed.

Lemma static_world_lookup w w' d drv :
  static_world w' = static_world w ->
  driverHeap w !! d = Some drv ->
  exists drv', driverHeap w' !! d = Some drv' /\ static_driver drv' = static_driver drv.
Proof.
  unfold static_world. intros [_ Hheap]%pair_equal_spec Hd.
  assert ((static_driver <$> driverHeap w') !! d = Some (static_driver drv)) as H.
  { by rewrite Hheap, lookup_fmap, Hd. }
  rewrite lookup_fmap in H. destruct (driverHeap w' !! d) as [drv'|]; [|done].
  exists drv'. split; [done|]. simpl in H. congruence.
Qed.

Lemma static_driver_lookup cls drv drv' id :
  static_driver drv' = static_driver drv ->
  dev_name <$> devices_of cls drv' !! id = dev_name <$> devices_of cls drv !! id.
Proof.
  unfold static_driver.
  intros [[[[_ Hin]%pair_equal_spec _]%pair_equal_spec Hout]%pair_equal_spec _]%pair_equal_spec.
  rewrite <- !lookup_fmap. destruct cls; simpl; congruence.
Qed.

Lemma static_driver_throws cls drv drv' :
  static_driver drv' = static_driver drv ->
  subscribe_throws cls drv' = subscribe_throws cls drv
  /\ unsubscribe_throws cls drv' = unsubscribe_throws cls drv.
Proof.
  unfold static_driver. intros [_ Hthrows]%pair_equal_spec.
  apply pair_equal_spec in Hthrows as [[[Hsi Hui]%pair_equal_spec Hso]%pair_equal_spec Huo].
  by destruct cls.
Qed.

(** The subscriptions of a port after one driver object has been replaced. *)
Lemma subscribed_to_set_driver w cls this d drv tbl d' k :
  subscribed_to (set_driver d (with_devices cls tbl drv) w) cls this d' k
  <-> (d' = d /\ exists dev, tbl !! k = Some dev /\ this ∈ subscribed dev)
      \/ (d' <> d /\ subscribed_to w cls this d' k).
Proof.
  unfold subscribed_to; simpl. destruct (decide (d' = d)) as [->|Hne].
  - rewrite lookup_insert_eq. split.
    + intros (drv0 & dev & [= <-] & Hdev & Hin).
      rewrite devices_of_with_devices in Hdev. left. split; [done|]. by exists dev.
    + intros [(_ & dev & Hdev & Hin) | (Hne & _)]; [|done].
      eexists _, dev. split; [done|]. by rewrite devices_of_with_devices.
  - rewrite lookup_insert_ne by done. split.
    + intros H. by right.
    + intros [(Heq & _) | (_ & H)]; done.
Qed.

(** ** setDeviceId *)

Lemma Input_setDeviceId_phases this id w :
  Input_setDeviceId this id w =
  let! self := deref (ports w !! this) in
  let! w1 := destroy_device IsInput this self w in
  create_device IsInput this id self
    (set_port this (assign_device IsInput None (-1) self) w1).
Proof. reflexivity. Qed.

Lemma Output_setDeviceId_phases this id w :
  Output_setDeviceId this id w =
  let! self := deref (ports w !! this) in
  let! w1 := destroy_device IsOutput this self w in
  create_device IsOutput this id self
    (set_port this (assign_device IsOutput None (-1) self) w1).
Proof. reflexivity. Qed.

Lemma Port_setDeviceId_phases this id w self :
  ports w !! this = Some self ->
  Port_setDeviceId this id w =
  let! w1 := destroy_device (vptr self) this self w in
  create_device (vptr self) this id self
    (set_port this (assign_device (vptr self) None (-1) self) w1).
Proof.
  intros Hself. unfold Port_setDeviceId. rewrite Hself; simpl.
  destruct (vptr self).
  - rewrite Input_setDeviceId_phases, Hself. done.
  - rewrite Output_setDeviceId_phases, Hself. done.
Qed.

(** The device that is closed is the one the port has bound. *)
Lemma closed_device_Some w self d k :
  closed_device w self = Some (d, k) ->
  driver self = Some d /\ deviceId self = k /\ 0 <= k.
Proof.
  unfold closed_device. destruct (driver self) as [d0|]; [|done].
  destruct (decide (0 <= deviceId self)); [|done].
  destruct (driverHeap w !! d0) as [drv|]; [|done].
  destruct (decide (deviceId self ∈ unsubscribe_throws (vptr self) drv)); [done|].
  destruct (devices_of (vptr self) drv !! deviceId self); [|done].
  by intros [= <- <-].
Qed.

(** A port that is a subscriber of the device it has bound is taken out of
    it when the driver's unsubscribe does not fail. *)
Lemma closed_device_bound w this self d k :
  unsubscribe_returns w self ->
  subscribed_to w (vptr self) this d k ->
  driver self = Some d -> deviceId self = k -> 0 <= k ->
  closed_device w self = Some (d, k).
Proof.
  intros Hok (drv & dev & Hdrv & Hdev & _) Hd <- Hk. unfold closed_device.
  rewrite Hd, decide_True, Hdrv by done.
  rewrite decide_False by by apply (Hok d drv).
  by rewrite Hdev.
Qed.

(** With subscriptions that agree with the binding and an unsubscribe that
    does not fail, nothing is left once the bound device is closed. *)
Lemma binding_consistent_closed w this self d k :
  binding_consistent w this self ->
  unsubscribe_returns w self ->
  ~ (subscribed_to w (vptr self) this d k /\ closed_device w self <> Some (d, k)).
Proof.
  intros Hcons Hok [Hsub Hnot]. apply Hnot.
  destruct (proj1 (Hcons d k) Hsub) as (Hd & Hid & Hk).
  by apply (closed_device_bound w this).
Qed.

Lemma closed_device_unbound w self :
  deviceId self < 0 -> closed_device w self = None.
Proof.
  intros Hid. unfold closed_device. destruct (driver self); [|done].
  by rewrite decide_False by lia.
Qed.


Lemma destroy_device_spec this self w :
  driver_live w self ->
  exists w1,
    destroy_device (vptr self) this self w = Done w1
    /\ ports w1 = ports w
    /\ static_world w1 = static_world w
    /\ forall d' k,
         subscribed_to w1 (vptr self) this d' k <->
         subscribed_to w (vptr self) this d' k
         /\ closed_device w self <> Some (d', k).
Proof.
  intros Hlive. unfold destroy_device, closed_device.
  destruct (driver self) as [d|] eqn:Hd.
  2: { exists w. repeat split; try done. by intros [? _]. }
  destruct (decide (0 <= deviceId self)) as [Hbound|Hunbound].
  2: { exists w. repeat split; try done. by intros [? _]. }
  destruct (Hlive d Hd Hbound) as [drv Hdrv]. rewrite Hdrv; simpl.
  destruct (decide (deviceId self ∈ unsubscribe_throws (vptr self) drv)) as [Hthrows|Hok].
  { rewrite Driver_unsubscribe_Throws by by left.
    exists w. repeat split; try done. by intros [? _]. }
  destruct (devices_of (vptr self) drv !! deviceId self) as [dev|] eqn:Hdev.
  - rewrite (Driver_unsubscribe_Returns _ _ _ _ _ Hok Hdev).
    eexists. split; [done|]. split; [done|]. split.
    { apply static_world_set_driver with drv; [done|].
      apply static_driver_update with dev; [done|].
      apply InputDevice_unsubscribe_name. }
    intros d' k. rewrite subscribed_to_set_driver. split.
    + intros [(-> & dev' & Hdev' & Hin) | (Hne & Hsub)].
      * destruct (decide (k = deviceId self)) as [->|Hk].
        { rewrite lookup_insert_eq in Hdev'. simplify_eq.
          by apply InputDevice_unsubscribe_gone in Hin. }
        rewrite lookup_insert_ne in Hdev' by done. split.
        -- by exists drv, dev'.
        -- intros [= Heq]. congruence.
      * split; [done|]. intros [= Heq _]. congruence.
    + intros [Hsub Hnot]. destruct (decide (d' = d)) as [->|Hne]; [left | by right].
      split; [done|]. destruct Hsub as (drv0 & dev0 & Hdrv0 & Hdev0 & Hin).
      rewrite Hdrv in Hdrv0. simplify_eq.
      assert (deviceId self <> k) as Hk.
      { intros Heq. apply Hnot. by rewrite Heq. }
      exists dev0. by rewrite lookup_insert_ne.
  - rewrite Driver_unsubscribe_Throws by by right.
    exists w. repeat split; try done. by intros [? _].
Qed.

Lemma create_device_success cls this id self w2 d drv dev :
  driver self = Some d -> 0 <= id ->
  driverHeap w2 !! d = Some drv ->
  id ∉ subscribe_throws cls drv ->
  devices_of cls drv !! id = Some dev ->
  exists w',
    create_device cls this id self w2 = Done w'
    /\ ports w' = <[this := assign_device cls (Some (d, id)) id self]> (ports w2)
    /\ static_world w' = static_world w2
    /\ forall d' k,
         subscribed_to w' cls this d' k <->
         subscribed_to w2 cls this d' k \/ (d' = d /\ k = id).
Proof.
  intros Hd Hid Hdrv Hok Hdev. unfold create_device. rewrite Hd.
  rewrite decide_True by done. rewrite Hdrv; simpl.
  rewrite (Driver_subscribe_Returns _ _ _ _ _ Hok Hdev).
  eexists. split; [done|]. split; [done|]. split.
  { rewrite static_world_set_port.
    apply static_world_set_driver with drv; [done|].
    by apply static_driver_update with dev. }
  intros d' k.
  change (subscribed_to (set_port ?t ?p ?w) ?c ?t' ?d0 ?k0)
    with (subscribed_to w c t' d0 k0).
  rewrite subscribed_to_set_driver. split.
  - intros [(-> & dev' & Hdev' & Hin) | (Hne & Hsub)]; [|by left].
    destruct (decide (k = id)) as [->|Hk]; [by right|].
    rewrite lookup_insert_ne in Hdev' by done. left. by exists drv, dev'.
  - destruct (decide (d' = d)) as [->|Hne].
    + intros H. left. split; [done|].
      destruct (decide (k = id)) as [->|Hk].
      * rewrite lookup_insert_eq. eexists. split; [done|].
        apply InputDevice_subscribe_elem. by left.
      * rewrite lookup_insert_ne by done.
        destruct H as [(drv0 & dev0 & Hdrv0 & Hdev0 & Hin) | (_ & Heq)]; [|done].
        rewrite Hdrv in Hdrv0. simplify_eq. by exists dev0.
    + intros [H | (Heq & _)]; [by right | done].
Qed.

Lemma create_device_unbound cls this id self w2 :
  id < 0 -> create_device cls this id self w2 = Done w2.
Proof.
  intros Hid. unfold create_device. destruct (driver self); [|done].
  by rewrite decide_False by lia.
Qed.

Lemma assign_device_fields cls dev id p :
  vptr (assign_device cls dev id p) = vptr p
  /\ context (assign_device cls dev id p) = context p
  /\ driverId (assign_device cls dev id p) = driverId p
  /\ channel (assign_device cls dev id p) = channel p
  /\ driver (assign_device cls dev id p) = driver p
  /\ deviceId (assign_device cls dev id p) = id
  /\ device (assign_device cls dev id p) = dev.
Proof. by destruct cls. Qed.

Lemma assign_device_again cls dev id dev0 id0 p :
  assign_device cls dev id (assign_device cls dev0 id0 p) = assign_device cls dev id p.
Proof. by destruct cls. Qed.

(** [setDeviceId(-1)], or any negative id: the port is left without a
    device, and out of the subscriber set of the device that was closed. *)
Lemma Port_setDeviceId_unbind this self w id :
  ports w !! this = Some self ->
  id < 0 ->
  driver_live w self ->
  exists w',
    Port_setDeviceId this id w = Done w'
    /\ ports w' = <[this := assign_device (vptr self) None (-1) self]> (ports w)
    /\ static_world w' = static_world w
    /\ forall d' k,
         subscribed_to w' (vptr self) this d' k <->
         subscribed_to w (vptr self) this d' k
         /\ closed_device w self <> Some (d', k).
Proof.
  intros Hself Hid Hlive. rewrite (Port_setDeviceId_phases _ _ _ _ Hself).
  destruct (destroy_device_spec this self w Hlive)
    as (w1 & -> & Hports & Hstatic & Hsubs); simpl.
  rewrite create_device_unbound by done.
  eexists. split; [done|]. split; [by simpl; rewrite Hports|]. split; [done|].
  exact Hsubs.
Qed.

(** [setDeviceId(id)] where the driver opens the device: the port is
    bound to it, subscribed to it, and out of the subscriber set of the
    device that was closed. *)
Lemma Port_setDeviceId_bind this self w d drv dev id :
  ports w !! this = Some self ->
  driver self = Some d ->
  driverHeap w !! d = Some drv ->
  id ∉ subscribe_throws (vptr self) drv ->
  devices_of (vptr self) drv !! id = Some dev ->
  0 <= id ->
  exists w',
    Port_setDeviceId this id w = Done w'
    /\ ports w' = <[this := assign_device (vptr self) (Some (d, id)) id self]> (ports w)
    /\ static_world w' = static_world w
    /\ forall d' k,
         subscribed_to w' (vptr self) this d' k <->
         (subscribed_to w (vptr self) this d' k
          /\ closed_device w self <> Some (d', k))
         \/ (d' = d /\ k = id).
Proof.
  intros Hself Hd Hdrv Hok Hdev Hid. rewrite (Port_setDeviceId_phases _ _ _ _ Hself).
  destruct (destroy_device_spec this self w)
    as (w1 & -> & Hports & Hstatic & Hsubs); simpl.
  { intros d0 Hd0 _. rewrite Hd in Hd0. simplify_eq. by eexists. }
  destruct (static_world_lookup _ _ _ _ Hstatic Hdrv) as (drv1 & Hdrv1 & Hstatic1).
  pose proof (static_driver_lookup (vptr self) _ _ id Hstatic1) as Hnames.
  rewrite Hdev in Hnames.
  destruct (devices_of (vptr self) drv1 !! id) as [dev1|] eqn:Hdev1; [|done].
  destruct (static_driver_throws (vptr self) _ _ Hstatic1) as [Hthrows1 _].
  rewrite <- Hthrows1 in Hok.
  destruct (create_device_success (vptr self) this id self
              (set_port this (assign_device (vptr self) None (-1) self) w1)
              d drv1 dev1 Hd Hid Hdrv1 Hok Hdev1)
    as (w' & -> & Hports' & Hstatic' & Hsubs').
  exists w'. split; [done|]. split.
  { rewrite Hports'. simpl. by rewrite insert_insert_eq, Hports. }
  split; [by rewrite Hstatic'|].
  intros d' k. rewrite Hsubs'.
  change (subscribed_to (set_port ?t ?p ?w0) ?c ?t' ?d0 ?k0)
    with (subscribed_to w0 c t' d0 k0).
  by rewrite Hsubs.
Qed.

(** C2.  A port of a live driver whose subscriptions agree with its
    binding calls [setDeviceId(a)] and then [setDeviceId(b)], for two
    different ids, both at least 0, of devices the driver holds, where every
    subscribe and unsubscribe of the two calls succeeds: the driver's
    subscribe fails neither on a nor on b, and its unsubscribe fails neither
    on the device the port had bound nor on a.  Both calls return; the port
    is then bound to device b, it is a subscriber of device b and of no
    other device, and in particular not of device a. *)
Theorem Port_setDeviceId_rebind (w : World) (this : positive) (self : Port)
    (d : positive) (drv : Driver) (a b : Z) :
  ports w !! this = Some self ->
  driver self = Some d ->
  driverHeap w !! d = Some drv ->
  binding_consistent w this self ->
  0 <= a -> 0 <= b -> a <> b ->
  is_Some (devices_of (vptr self) drv !! a) ->
  is_Some (devices_of (vptr self) drv !! b) ->
  a ∉ subscribe_throws (vptr self) drv ->
  b ∉ subscribe_throws (vptr self) drv ->
  (0 <= deviceId self -> deviceId self ∉ unsubscribe_throws (vptr self) drv) ->
  a ∉ unsubscribe_throws (vptr self) drv ->
  exists w1 w2 self2,
    Port_setDeviceId this a w = Done w1
    /\ Port_setDeviceId this b w1 = Done w2
    /\ ports w2 !! this = Some self2
    /\ deviceId self2 = b
    /\ device self2 = Some (d, b)
    /\ (forall d' k, subscribed_to w2 (vptr self) this d' k <-> d' = d /\ k = b)
    /\ ~ subscribed_to w2 (vptr self) this d a
    /\ binding_consistent w2 this self2.
Proof.
  intros Hself Hd Hdrv Hcons Ha Hb Hab [deva Hdeva] [devb Hdevb] Hsa Hsb Hu0 Hua.
  assert (unsubscribe_returns w self) as Hok.
  { intros d0 drv0 Hd0 Hk Hdrv0. rewrite Hd in Hd0. simplify_eq. by apply Hu0. }
  destruct (Port_setDeviceId_bind this self w d drv deva a Hself Hd Hdrv Hsa Hdeva Ha)
    as (w1 & Hcall1 & Hports1 & Hstatic1 & Hsubs1).
  set (self1 := assign_device (vptr self) (Some (d, a)) a self) in *.
  destruct (assign_device_fields (vptr self) (Some (d, a)) a self)
    as (Hv1 & _ & _ & _ & Hd1 & Hid1 & _). fold self1 in Hv1, Hd1, Hid1.
  assert (ports w1 !! this = Some self1) as Hself1
    by (rewrite Hports1; apply lookup_insert_eq).
  destruct (static_world_lookup _ _ _ _ Hstatic1 Hdrv) as (drv1 & Hdrv1 & Hst1).
  pose proof (static_driver_lookup (vptr self) _ _ b Hst1) as Hnames.
  rewrite Hdevb in Hnames.
  destruct (devices_of (vptr self) drv1 !! b) as [devb1|] eqn:Hdevb1; [|done].
  rewrite Hd in Hd1.
  destruct (static_driver_throws (vptr self) _ _ Hst1) as [Hthrows1 Hthrows1'].
  destruct (Port_setDeviceId_bind this self1 w1 d drv1 devb1 b Hself1 Hd1 Hdrv1)
    as (w2 & Hcall2 & Hports2 & Hstatic2 & Hsubs2);
    [by rewrite Hv1, Hthrows1 | by rewrite Hv1 | done |].
  assert (forall d' k, subscribed_to w1 (vptr self) this d' k <-> d' = d /\ k = a)
    as Hexact1.
  { intros d' k. rewrite Hsubs1. split; [|by right].
    intros [H | H]; [|done]. by apply binding_consistent_closed in H. }
  assert (closed_device w1 self1 = Some (d, a)) as Hclosed1.
  { apply (closed_device_bound w1 this); [| rewrite Hv1; by apply Hexact1 | done..].
    intros d0 drv0 Hd0 _ Hdrv0. rewrite Hd1 in Hd0. simplify_eq.
    by rewrite Hv1, Hid1, Hthrows1'. }
  rewrite Hv1 in Hsubs2, Hports2. unfold self1 in Hports2.
  rewrite assign_device_again in Hports2.
  set (self2 := assign_device (vptr self) (Some (d, b)) b self) in *.
  destruct (assign_device_fields (vptr self) (Some (d, b)) b self)
    as (Hv2 & _ & _ & _ & Hd2 & Hid2 & Hdev2).
  fold self2 in Hv2, Hd2, Hid2, Hdev2.
  assert (forall d' k, subscribed_to w2 (vptr self) this d' k <-> d' = d /\ k = b)
    as Hexact.
  { intros d' k. rewrite Hsubs2, Hexact1, Hclosed1. split.
    - intros [[[-> ->] Hnot] | H]; done.
    - intros H. by right. }
  exists w1, w2, self2. split; [done|]. split; [done|].
  split; [rewrite Hports2; apply lookup_insert_eq|].
  split; [done|]. split; [done|]. split; [done|]. split.
  - rewrite Hexact. intros [_ Heq]. done.
  - intros d' k. rewrite Hv2, Hexact, Hd2, Hd, Hid2. split.
    + intros [-> ->]. done.
    + intros ([= ->] & -> & _). done.
Qed.

Lemma no_subscribers_none w cls this d id :
  no_subscribers w -> ~ subscribed_to w cls this d id.
Proof.
  intros Hnone (drv & dev & Hdrv & Hdev & Hin).
  destruct (Hnone d drv Hdrv) as [Hinput Houtput].
  assert (subscribed dev = ∅) as Hempty.
  { destruct cls; simpl in Hdev; [by apply (Hinput id) | by apply (Houtput id)]. }
  rewrite Hempty in Hin. by apply not_elem_of_empty in Hin.
Qed.

(** A port without a device, in a state without subscriptions. *)
Lemma unbound_port_consistent w this self :
  no_subscribers w -> deviceId self < 0 -> binding_consistent w this self.
Proof.
  intros Hnone Hid d id. split.
  - intros Hsub. by apply no_subscribers_none in Hsub.
  - intros (_ & <- & H). lia.
Qed.

Lemma Port_setDeviceId_rebind_witness :
  exists w1 w2 self2,
    Port_setDeviceId 1%positive 1 sample_world = Done w1
    /\ Port_setDeviceId 1%positive 2 w1 = Done w2
    /\ ports w2 !! 1%positive = Some self2
    /\ deviceId self2 = 2
    /\ device self2 = Some (10%positive, 2)
    /\ (forall d' k, subscribed_to w2 IsInput 1%positive d' k
                     <-> d' = 10%positive /\ k = 2)
    /\ ~ subscribed_to w2 IsInput 1%positive 10%positive 1
    /\ binding_consistent w2 1%positive self2.
Proof.
  apply (Port_setDeviceId_rebind sample_world 1%positive (input_port (-1) (-1) None)
           10%positive sample_driver 1 2).
  - reflexivity.
  - reflexivity.
  - reflexivity.
  - apply unbound_port_consistent.
    + apply (bool_decide_unpack _). vm_compute. exact I.
    + simpl. lia.
  - lia.
  - lia.
  - lia.
  - vm_compute. eexists. reflexivity.
  - vm_compute. eexists. reflexivity.
  - apply (bool_decide_unpack _). vm_compute. exact I.
  - apply (bool_decide_unpack _). vm_compute. exact I.
  - simpl. lia.
  - apply (bool_decide_unpack _). vm_compute. exact I.
Defined.

(** ** setDriverId *)

Lemma resolve_driver_is_Some drivers id :
  drivers <> [] -> is_Some (resolve_driver drivers id).
Proof.
  intros Hne. unfold resolve_driver.
  destruct (getDriver drivers id); [by eexists|].
  destruct drivers; [done | by eexists].
Qed.

Lemma resolve_driver_registered drivers id :
  id ∈ getDriverIds drivers ->
  exists d, getDriver drivers id = Some d /\ resolve_driver drivers id = Some (d, id).
Proof.
  intros Hin. unfold resolve_driver.
  destruct (getDriver drivers id) as [d|] eqn:Hd; [by exists d|].
  by apply getDriver_None in Hd.
Qed.

Lemma resolve_driver_fallback drivers id :
  id ∉ getDriverIds drivers -> drivers <> [] ->
  exists first rest,
    drivers = first :: rest /\ resolve_driver drivers id = Some (first.2, first.1).
Proof.
  intros Hin Hne. unfold resolve_driver. apply getDriver_None in Hin. rewrite Hin.
  destruct drivers as [|first rest]; [done|]. by exists first, rest.
Qed.

(** The driver that [setDriverId] stores is a registered one. *)
Lemma resolve_driver_in drivers id d id' :
  resolve_driver drivers id = Some (d, id') -> (id', d) ∈ drivers.
Proof.
  unfold resolve_driver. destruct (getDriver drivers id) as [d0|] eqn:Hd0.
  - intros [= <- <-]. apply getDriver_Some in Hd0 as (before & after & -> & _).
    apply elem_of_app. right. apply elem_of_cons. by left.
  - destruct drivers as [|[i0 p0] rest]; [done|]. intros [= <- <-].
    apply elem_of_cons. by left.
Qed.

Lemma Port_setDriverId_spec this id w self d' id' :
  ports w !! this = Some self ->
  driver_live w self ->
  resolve_driver (drivers w) id = Some (d', id') ->
  exists w',
    Port_setDriverId this id w = Done w'
    /\ ports w' = <[this := assign_driver (Some d') id'
                              (assign_device (vptr self) None (-1) self)]> (ports w)
    /\ static_world w' = static_world w
    /\ forall d0 k,
         subscribed_to w' (vptr self) this d0 k <->
         subscribed_to w (vptr self) this d0 k
         /\ closed_device w self <> Some (d0, k).
Proof.
  intros Hself Hlive Hres. unfold Port_setDriverId.
  destruct (Port_setDeviceId_unbind this self w (-1) Hself ltac:(lia) Hlive)
    as (w1 & -> & Hports & Hstatic & Hsubs); simpl.
  rewrite Hports, lookup_insert_eq; simpl.
  rewrite (static_world_drivers _ _ Hstatic).
  unfold resolve_driver in Hres.
  destruct (getDriver (drivers w) id) as [d|].
  - injection Hres as -> ->. eexists. split; [done|]. simpl.
    split; [by rewrite Hports, insert_insert_eq|].
    split; [exact Hstatic | exact Hsubs].
  - destruct (drivers w) as [|first rest]; [done|]. injection Hres as <- <-.
    eexists. split; [done|]. simpl.
    split; [by rewrite Hports, insert_insert_eq|].
    split; [exact Hstatic | exact Hsubs].
Qed.

(** C5.  With at least one driver registered, [setDriverId(id)] on a live
    port returns and leaves the port without a device ([deviceId] = -1, null
    [device]); its driver and driver id are the registered driver of [id]
    and [id] when [id] is registered, and the first registered driver and
    its id otherwise. *)
Theorem Port_setDriverId_binds (w : World) (this : positive) (self : Port) (id : Z) :
  ports w !! this = Some self ->
  driver_live w self ->
  drivers w <> [] ->
  exists w' self',
    Port_setDriverId this id w = Done w'
    /\ ports w' !! this = Some self'
    /\ deviceId self' = -1
    /\ device self' = None
    /\ (id ∈ getDriverIds (drivers w) ->
          is_Some (getDriver (drivers w) id)
          /\ driver self' = getDriver (drivers w) id
          /\ driverId self' = id)
    /\ (id ∉ getDriverIds (drivers w) ->
          exists first rest,
            drivers w = first :: rest
            /\ driver self' = Some first.2 /\ driverId self' = first.1).
Proof.
  intros Hself Hlive Hne.
  destruct (resolve_driver_is_Some (drivers w) id Hne) as [[d' id'] Hres].
  destruct (Port_setDriverId_spec this id w self d' id' Hself Hlive Hres)
    as (w' & Hcall & Hports & _).
  destruct (assign_device_fields (vptr self) None (-1) self)
    as (_ & _ & _ & _ & _ & Hid & Hdev).
  eexists w', _. split; [done|].
  split; [rewrite Hports; apply lookup_insert_eq|]. simpl.
  split; [done|]. split; [done|]. split.
  - intros Hin. destruct (resolve_driver_registered _ _ Hin) as (d & Hd & Hres').
    rewrite Hres in Hres'. simplify_eq. rewrite Hd. done.
  - intros Hin. destruct (resolve_driver_fallback _ _ Hin Hne)
      as (first & rest & Hfirst & Hres').
    rewrite Hres in Hres'. simplify_eq. by exists first, rest.
Qed.

Lemma Port_setDriverId_binds_witness :
  exists w' self',
    Port_setDriverId 1%positive 2 sample_world = Done w'
    /\ ports w' !! 1%positive = Some self'
    /\ deviceId self' = -1
    /\ device self' = None
    /\ driver self' = Some 20%positive
    /\ driverId self' = 2.
Proof.
  destruct (Port_setDriverId_binds sample_world 1%positive
              (input_port (-1) (-1) None) 2)
    as (w' & self' & Hcall & Hself' & Hid & Hdev & Hreg & _).
  - reflexivity.
  - intros d _ H. simpl in H. lia.
  - discriminate.
  - exists w', self'. split; [exact Hcall|]. split; [exact Hself'|].
    split; [exact Hid|]. split; [exact Hdev|].
    destruct Hreg as (_ & Hdrv & Hdid).
    + apply (bool_decide_unpack _). vm_compute. exact I.
    + split; [exact Hdrv | exact Hdid].
Defined.

(** The ports of [sample_world] are as [reset] leaves them. *)
Lemma sample_world_reset :
  Input_reset 1%positive sample_world = Done sample_world
  /\ Output_reset 2%positive sample_world = Done sample_world.
Proof. split; vm_compute; reflexivity. Qed.

(** ** getDeviceName and getDeviceIds *)

Lemma Input_getDeviceName_no_driver w self id :
  driver self = None -> Input_getDeviceName w self id = Done ""%string.
Proof. unfold Input_getDeviceName. by intros ->. Qed.

Lemma Input_getDeviceName_driver w self d drv id :
  driver self = Some d -> driverHeap w !! d = Some drv ->
  Input_getDeviceName w self id =
  Done (match Driver_getInputDeviceName drv id with
        | Returns s => s
        | Throws => ""%string
        end).
Proof.
  unfold Input_getDeviceName. intros -> ->; simpl.
  by destruct (Driver_getInputDeviceName drv id).
Qed.

(** With a driver, [Output::getDeviceName] never asks it. *)
Lemma Output_getDeviceName_driver w self d id :
  driver self = Some d -> Output_getDeviceName w self id = Done ""%string.
Proof. unfold Output_getDeviceName. by intros ->. Qed.

(** Without a driver, [Output::getDeviceName] calls through the null
    pointer. *)
Lemma Output_getDeviceName_no_driver w self id :
  driver self = None -> Output_getDeviceName w self id = Fault.
Proof. unfold Output_getDeviceName. by intros ->. Qed.

(** C4, at an output port whose driver names device 0 "Synth":
    [Output::getDeviceName(0)] returns the empty string although the lookup
    of the driver succeeds, where [Input::getDeviceName] on the same driver
    returns the driver's name; and an output port without a driver does not
    return the empty string but dereferences the null driver. *)
Theorem Output_getDeviceName_inverted_test :
  driver (output_port 0 (-1) None) = Some 10%positive
  /\ driverHeap sample_world !! 10%positive = Some sample_driver
  /\ Driver_getOutputDeviceName sample_driver 0 = Returns "Synth"%string
  /\ Port_getDeviceName sample_world (output_port 0 (-1) None) 0 = Done ""%string
  /\ Port_getDeviceName sample_world (input_port (-1) (-1) None) 0 = Done "Keys"%string
  /\ Port_getDeviceName sample_world
       (assign_driver None (-1) (output_port 0 (-1) None)) 0 = Fault.
Proof. repeat split; vm_compute; reflexivity. Qed.

Lemma Port_getDeviceName_Done w self d id :
  driver self = Some d -> is_Some (driverHeap w !! d) ->
  exists s, Port_getDeviceName w self id = Done s.
Proof.
  intros Hd [drv Hdrv]. unfold Port_getDeviceName. destruct (vptr self).
  - rewrite (Input_getDeviceName_driver _ _ _ _ _ Hd Hdrv). by eexists.
  - rewrite (Output_getDeviceName_driver _ _ _ _ Hd). by eexists.
Qed.

Lemma Port_getDeviceIds_Done w self d :
  driver self = Some d -> is_Some (driverHeap w !! d) ->
  exists ids, Port_getDeviceIds w self = Done ids.
Proof.
  intros Hd [drv Hdrv].
  unfold Port_getDeviceIds, Input_getDeviceIds, Output_getDeviceIds.
  rewrite Hd, Hdrv; simpl.
  destruct (vptr self);
    [destruct (Driver_getInputDeviceIds drv) | destruct (Driver_getOutputDeviceIds drv)];
    by eexists.
Qed.

Lemma find_device_Done w self d n ids :
  driver self = Some d -> is_Some (driverHeap w !! d) ->
  exists found, find_device w self n ids = Done found.
Proof.
  intros Hd Hlive. induction ids as [|id rest IH]; simpl; [by eexists|].
  destruct (Port_getDeviceName_Done w self d id Hd Hlive) as [s ->]; simpl.
  destruct (decide (s = n)); [by eexists | exact IH].
Qed.

(** The search of [fromJson] on an input port, for a name that is not
    empty: the first enumerated id that the driver names so. *)
Lemma find_device_Input w self d drv n ids :
  vptr self = IsInput -> driver self = Some d -> driverHeap w !! d = Some drv ->
  n <> ""%string ->
  find_device w self n ids
  = Done (first_named (dev_name <$> inputDevices drv) n ids).
Proof.
  intros Hcls Hd Hdrv Hn. induction ids as [|id rest IH]; simpl; [done|].
  unfold Port_getDeviceName. rewrite Hcls.
  rewrite (Input_getDeviceName_driver _ _ _ _ _ Hd Hdrv); simpl.
  unfold Driver_getInputDeviceName, Device_getName. rewrite lookup_fmap.
  destruct (inputDevices drv !! id) as [dev|]; simpl.
  - destruct (decide (dev_name dev = n)) as [->|Hne].
    + by rewrite decide_True.
    + rewrite decide_False by congruence. exact IH.
  - rewrite decide_False by congruence. exact IH.
Qed.


Lemma first_named_Some names n ids id :
  first_named names n ids = Some id <->
  exists before after,
    ids = before ++ id :: after /\ names !! id = Some n
    /\ forall k, k ∈ before -> names !! k <> Some n.
Proof.
  revert id. induction ids as [|i rest IH]; intros id; simpl.
  - split; [done|]. intros (before & after & Heq & _). by destruct before.
  - destruct (decide (names !! i = Some n)) as [Hi|Hi].
    + split.
      * intros [= ->]. exists [], rest. split; [done|]. split; [done|].
        intros k Hk. by apply elem_of_nil in Hk.
      * intros (before & after & Heq & Hid & Hbefore).
        destruct before as [|b before]; simpl in Heq; simplify_eq; [done|].
        exfalso. apply (Hbefore b); [apply elem_of_cons; by left | done].
    + rewrite IH. split.
      * intros (before & after & -> & Hid & Hbefore).
        exists (i :: before), after. split; [done|]. split; [done|].
        intros k [->|Hk]%elem_of_cons; [done | by apply Hbefore].
      * intros (before & after & Heq & Hid & Hbefore).
        destruct before as [|b before]; simpl in Heq; simplify_eq.
        exists before, after. split; [done|]. split; [done|].
        intros k Hk. apply Hbefore. apply elem_of_cons. by right.
Qed.

(** ** toJson and fromJson *)

Lemma Port_fromJson_blocks this rootJ w :
  Port_fromJson this rootJ w =
  let! w := Port_setDriverId this (-1) w in
  let! w :=
    match rootJ !! "driver"%string with
    | Some driverJ => Port_setDriverId this (to_int (json_integer_value driverJ)) w
    | None => Done w
    end in
  let! self := deref (ports w !! this) in
  let! w := restore_device this rootJ self w in
  let! self := deref (ports w !! this) in
  match rootJ !! "channel"%string with
  | Some channelJ =>
      Done (set_port this (Port_setChannel (to_int (json_integer_value channelJ)) self) w)
  | None => Done w
  end.
Proof. reflexivity. Qed.

Lemma Port_toJson_lookup w self j :
  Port_toJson w self = Done j ->
  j !! "driver"%string = Some (JInteger (driverId self))
  /\ j !! "channel"%string = Some (JInteger (channel self))
  /\ (forall v, j !! "deviceName"%string = Some v -> exists n, v = JString n)
  /\ (forall dev d,
        device self = Some dev -> device_at w (vptr self) dev = Done d ->
        dev_name d <> ""%string ->
        j !! "deviceName"%string = json_string (c_str (dev_name d)))
  /\ (is_Some (j !! "deviceName"%string) ->
      exists dev d,
        device self = Some dev /\ device_at w (vptr self) dev = Done d
        /\ dev_name d <> ""%string).
Proof.
  unfold Port_toJson, Port_getDriverId, Port_getChannel, Device_getName,
    json_object_set_new.
  destruct (device self) as [dev|]; simpl.
  - destruct (device_at w (vptr self) dev) as [d|] eqn:Hat; simpl; [|done].
    destruct (decide (dev_name d = ""%string)) as [Hempty|Hname]; simpl.
    { intros [= <-]. split; [done|]. split; [done|]. split; [by intros v Hv|].
      split; [|by intros [v Hv]].
      intros dev0 d0 [= <-] Hat0 Hne. rewrite Hat in Hat0. by simplify_eq. }
    unfold json_string.
    destruct (utf8_check_string (c_str (dev_name d))) eqn:Hutf; simpl;
      intros [= <-].
    + split; [done|]. split; [done|]. split; [|split].
      * intros v Hv. rewrite lookup_insert_ne, lookup_insert_eq in Hv by done.
        simplify_eq. by eexists.
      * intros dev0 d0 [= <-] Hat0 Hne. rewrite Hat in Hat0. simplify_eq.
        by rewrite Hutf, lookup_insert_ne, lookup_insert_eq.
      * intros _. by exists dev, d.
    + split; [done|]. split; [done|]. split; [by intros v Hv|].
      split; [|by intros [v Hv]].
      intros dev0 d0 [= <-] Hat0 Hne. rewrite Hat in Hat0. simplify_eq.
      by rewrite Hutf.
  - intros [= <-]. split; [done|]. split; [done|]. split; [by intros v Hv|].
    split; [done | by intros [v Hv]].
Qed.

Lemma create_device_failure cls this id self w2 d drv :
  driver self = Some d -> driverHeap w2 !! d = Some drv ->
  id ∈ subscribe_throws cls drv \/ devices_of cls drv !! id = None ->
  create_device cls this id self w2 = Done w2.
Proof.
  intros Hd Hdrv Hdev. unfold create_device. rewrite Hd.
  destruct (decide (0 <= id)); [|done]. rewrite Hdrv; simpl.
  by rewrite (Driver_subscribe_Throws _ _ _ _ Hdev).
Qed.

(** [setDeviceId] returns on every id when the driver of the port is a
    live object; only the device members of the port change. *)
Lemma Port_setDeviceId_total this self w id :
  ports w !! this = Some self ->
  (forall d, driver self = Some d -> is_Some (driverHeap w !! d)) ->
  exists w' dev' id',
    Port_setDeviceId this id w = Done w'
    /\ ports w' = <[this := assign_device (vptr self) dev' id' self]> (ports w)
    /\ static_world w' = static_world w.
Proof.
  intros Hself Hlive.
  assert (driver_live w self) as Hlive' by (intros d Hd _; by apply Hlive).
  destruct (decide (id < 0)) as [Hneg|Hpos].
  { destruct (Port_setDeviceId_unbind this self w id Hself Hneg Hlive')
      as (w' & Hcall & Hports & Hstatic & _). by exists w', None, (-1). }
  destruct (driver self) as [d|] eqn:Hd.
  - destruct (Hlive d eq_refl) as [drv Hdrv].
    destruct (decide (id ∈ subscribe_throws (vptr self) drv)) as [Hthrows|Hok].
    { rewrite (Port_setDeviceId_phases _ _ _ _ Hself).
      destruct (destroy_device_spec this self w Hlive')
        as (w1 & -> & Hports & Hstatic & _); simpl.
      destruct (static_world_lookup _ _ _ _ Hstatic Hdrv) as (drv1 & Hdrv1 & Hst1).
      destruct (static_driver_throws (vptr self) _ _ Hst1) as [Hthrows1 _].
      rewrite (create_device_failure _ _ _ _ _ d drv1);
        [| done | done | left; by rewrite Hthrows1].
      eexists _, None, (-1). split; [done|]. simpl. by rewrite Hports. }
    destruct (devices_of (vptr self) drv !! id) as [dev|] eqn:Hdev.
    + destruct (Port_setDeviceId_bind this self w d drv dev id Hself Hd Hdrv Hok Hdev)
        as (w' & Hcall & Hports & Hstatic & _); [lia|].
      by exists w', (Some (d, id)), id.
    + rewrite (Port_setDeviceId_phases _ _ _ _ Hself).
      destruct (destroy_device_spec this self w Hlive')
        as (w1 & -> & Hports & Hstatic & _); simpl.
      destruct (static_world_lookup _ _ _ _ Hstatic Hdrv) as (drv1 & Hdrv1 & Hst1).
      pose proof (static_driver_lookup (vptr self) _ _ id Hst1) as Hnames.
      rewrite Hdev in Hnames.
      destruct (devices_of (vptr self) drv1 !! id) as [dev1|] eqn:Hdev1; [done|].
      rewrite (create_device_failure _ _ _ _ _ d drv1); [| done | done | by right].
      eexists _, None, (-1). split; [done|]. simpl. by rewrite Hports.
  - rewrite (Port_setDeviceId_phases _ _ _ _ Hself).
    destruct (destroy_device_spec this self w Hlive')
      as (w1 & -> & Hports & Hstatic & _); simpl.
    unfold create_device. rewrite Hd.
    eexists _, None, (-1). split; [done|]. simpl. by rewrite Hports.
Qed.

(** The two [setDriverId] calls that open [fromJson]. *)
Lemma fromJson_driver_steps this w self sid d2 id2 :
  ports w !! this = Some self ->
  driver_live w self ->
  drivers w <> [] ->
  resolve_driver (drivers w) sid = Some (d2, id2) ->
  exists w1 w2 p2,
    Port_setDriverId this (-1) w = Done w1
    /\ Port_setDriverId this sid w1 = Done w2
    /\ ports w2 !! this = Some p2
    /\ static_world w2 = static_world w
    /\ vptr p2 = vptr self /\ channel p2 = channel self
    /\ driver p2 = Some d2 /\ driverId p2 = id2
    /\ deviceId p2 = -1 /\ device p2 = None.
Proof.
  intros Hself Hlive Hne Hres.
  destruct (resolve_driver_is_Some (drivers w) (-1) Hne) as [[d1 id1] Hres1].
  destruct (Port_setDriverId_spec this (-1) w self d1 id1 Hself Hlive Hres1)
    as (w1 & Hcall1 & Hports1 & Hstatic1 & _).
  set (p1 := assign_driver (Some d1) id1 (assign_device (vptr self) None (-1) self))
    in *.
  destruct (assign_device_fields (vptr self) None (-1) self)
    as (Hv & _ & _ & Hch & _ & Hid & _).
  assert (ports w1 !! this = Some p1) as Hself1
    by (rewrite Hports1; apply lookup_insert_eq).
  assert (driver_live w1 p1) as Hlive1.
  { intros d _ Hbound. unfold p1 in Hbound; simpl in Hbound.
    rewrite Hid in Hbound. lia. }
  rewrite <- (static_world_drivers _ _ Hstatic1) in Hres.
  destruct (Port_setDriverId_spec this sid w1 p1 d2 id2 Hself1 Hlive1 Hres)
    as (w2 & Hcall2 & Hports2 & Hstatic2 & _).
  eexists w1, w2, _. split; [done|]. split; [done|].
  split; [rewrite Hports2; apply lookup_insert_eq|].
  split; [by rewrite Hstatic2|].
  unfold p1. clear. destruct (vptr self) eqn:Hcls; simpl; rewrite Hcls; done.
Qed.

(** The device block returns when the driver of the port is live, and
    only touches the device members of the port. *)
Lemma restore_device_total this j self w d :
  ports w !! this = Some self ->
  driver self = Some d -> is_Some (driverHeap w !! d) ->
  (forall v, j !! "deviceName"%string = Some v -> exists n, v = JString n) ->
  exists w' self',
    restore_device this j self w = Done w'
    /\ ports w' !! this = Some self'
    /\ static_world w' = static_world w
    /\ vptr self' = vptr self /\ channel self' = channel self
    /\ driver self' = driver self /\ driverId self' = driverId self.
Proof.
  intros Hself Hd Hlive Hstr. unfold restore_device. rewrite Hd.
  destruct (j !! "deviceName"%string) as [v|]; [|by exists w, self].
  destruct (Hstr v eq_refl) as [n ->]; simpl.
  destruct (Port_getDeviceIds_Done w self d Hd Hlive) as [ids ->]; simpl.
  destruct (find_device_Done w self d n ids Hd Hlive) as [[id|] ->]; simpl;
    [|by exists w, self].
  destruct (Port_setDeviceId_total this self w id Hself)
    as (w' & dev' & id' & Hcall & Hports & Hstatic).
  { intros d0 Hd0. rewrite Hd in Hd0. by simplify_eq. }
  destruct (assign_device_fields (vptr self) dev' id' self)
    as (Hv & _ & Hdid & Hch & Hdrv & _).
  eexists w', _. split; [done|].
  split; [rewrite Hports; apply lookup_insert_eq|]. rewrite Hdrv, Hd. done.
Qed.

(** The device block on an input port: the device bound is the first
    enumerated one that the driver names as the record does, when the
    driver's subscribe does not fail on it. *)
Lemma restore_device_Input this j self w d drv n ids id :
  ports w !! this = Some self ->
  vptr self = IsInput -> driver self = Some d -> driverHeap w !! d = Some drv ->
  j !! "deviceName"%string = Some (JString n) -> n <> ""%string ->
  inputDeviceIds drv = Returns ids ->
  first_named (dev_name <$> inputDevices drv) n ids = Some id ->
  0 <= id ->
  id ∉ inputSubscribeThrows drv ->
  exists w',
    restore_device this j self w = Done w'
    /\ ports w' = <[this := assign_device IsInput (Some (d, id)) id self]> (ports w)
    /\ subscribed_to w' IsInput this d id.
Proof.
  intros Hself Hcls Hd Hdrv Hname Hn Hids Hfirst Hid Hok.
  unfold restore_device. rewrite Hd, Hname; simpl.
  unfold Port_getDeviceIds, Input_getDeviceIds, Driver_getInputDeviceIds.
  rewrite Hcls, Hd, Hdrv; simpl. rewrite Hids; simpl.
  rewrite (find_device_Input w self d drv n ids Hcls Hd Hdrv Hn), Hfirst; simpl.
  apply first_named_Some in Hfirst as (_ & _ & _ & Hnamed & _).
  rewrite lookup_fmap in Hnamed.
  destruct (inputDevices drv !! id) as [dev|] eqn:Hdev; [|done].
  destruct (Port_setDeviceId_bind this self w d drv dev id Hself Hd Hdrv)
    as (w' & Hcall & Hports & _ & Hsubs); [by rewrite Hcls | by rewrite Hcls | done |].
  rewrite Hcls in Hports, Hsubs.
  exists w'. split; [done|]. split; [done|]. apply Hsubs. by right.
Qed.

(** C6, as the code has it.  A record written by [toJson] for a port is
    loaded by [fromJson] into a live port, with at least one driver
    registered and every registered driver live.  The call returns; the
    driver id is the saved one when it is registered, else that of the
    first registered driver; the channel is the saved one; and an input port
    is bound again to the saved device id, and subscribed to that device,
    provided the saved device had a name that is not empty and that
    [json_string] stores whole (valid UTF-8 without a NUL byte), the saved
    id is the first one that the driver enumerates under that name, and the
    driver's subscribe does not fail on it. *)
Theorem Port_fromJson_toJson (wS : World) (saved : Port)
    (j : gmap string json_t) (w : World) (this : positive) (self : Port) :
  Port_toJson wS saved = Done j ->
  int_range (driverId saved) -> int_range (channel saved) ->
  ports w !! this = Some self ->
  driver_live w self -> registry_live w -> drivers w <> [] ->
  exists w' self',
    Port_fromJson this j w = Done w'
    /\ ports w' !! this = Some self'
    /\ (driverId saved ∈ getDriverIds (drivers w) ->
          driverId self' = driverId saved
          /\ driver self' = getDriver (drivers w) (driverId saved))
    /\ (driverId saved ∉ getDriverIds (drivers w) ->
          exists first rest,
            drivers w = first :: rest
            /\ driverId self' = first.1 /\ driver self' = Some first.2)
    /\ channel self' = channel saved
    /\ (vptr self = IsInput ->
        forall devS dS d drv ids,
          device saved = Some devS ->
          device_at wS (vptr saved) devS = Done dS ->
          dev_name dS <> ""%string ->
          json_string (c_str (dev_name dS)) = Some (JString (dev_name dS)) ->
          0 <= deviceId saved ->
          driver self' = Some d -> driverHeap w !! d = Some drv ->
          inputDeviceIds drv = Returns ids ->
          first_named (dev_name <$> inputDevices drv) (dev_name dS) ids
            = Some (deviceId saved) ->
          deviceId saved ∉ inputSubscribeThrows drv ->
          deviceId self' = deviceId saved
          /\ device self' = Some (d, deviceId saved)
          /\ subscribed_to w' IsInput this d (deviceId saved)).
Proof.
  intros Hjson Hdid Hchan Hself Hlive Hreg Hne.
  destruct (Port_toJson_lookup _ _ _ Hjson) as (Hjd & Hjc & Hjstr & Hjname & _).
  destruct (resolve_driver_is_Some (drivers w) (driverId saved) Hne)
    as [[d2 id2] Hres].
  destruct (fromJson_driver_steps this w self (driverId saved) d2 id2
              Hself Hlive Hne Hres)
    as (w1 & w2 & p2 & Hstep1 & Hstep2 & Hself2 & Hstatic2 & Hv2 & Hch2 & Hd2
        & Hid2 & Hdev2 & _).
  assert (is_Some (driverHeap w !! d2)) as [drv0 Hdrv0].
  { apply resolve_driver_in in Hres. unfold registry_live in Hreg.
    rewrite Forall_forall in Hreg. apply (Hreg _ Hres). }
  destruct (static_world_lookup _ _ _ _ Hstatic2 Hdrv0) as (drv2 & Hdrv2 & Hst2).
  destruct (restore_device_total this j p2 w2 d2 Hself2 Hd2
              ltac:(by eexists) Hjstr)
    as (w3 & p3 & Hrestore & Hself3 & Hstatic3 & Hv3 & Hch3 & Hd3 & Hid3).
  exists (set_port this (Port_setChannel (to_int (channel saved)) p3) w3).
  eexists. split.
  { rewrite Port_fromJson_blocks, Hstep1; simpl.
    rewrite Hjd; simpl json_integer_value.
    rewrite (to_int_id _ Hdid), Hstep2; simpl.
    rewrite Hself2; simpl. rewrite Hrestore; simpl.
    rewrite Hself3; simpl. by rewrite Hjc. }
  split; [apply lookup_insert_eq|]. simpl.
  rewrite (to_int_id _ Hchan), Hid3, Hd3, Hd2, Hid2.
  split.
  { intros Hin. destruct (resolve_driver_registered _ _ Hin) as (d & Hd & Hres').
    rewrite Hres in Hres'. simplify_eq. by rewrite Hd. }
  split.
  { intros Hin. destruct (resolve_driver_fallback _ _ Hin Hne)
      as (first & rest & Hfirst & Hres').
    rewrite Hres in Hres'. simplify_eq. by exists first, rest. }
  split; [done|].
  intros Hcls devS dS d drv ids HdevS HdS Hname Hstored Hbound [= <-] Hdrv Hids
    Hfirst Hok.
  rewrite Hdrv in Hdrv0. injection Hdrv0 as <-.
  assert (inputDeviceIds drv2 = inputDeviceIds drv
          /\ dev_name <$> inputDevices drv2 = dev_name <$> inputDevices drv)
    as [Hids2 Hnames2].
  { split.
    - exact (f_equal (fun t => t.1.1.1.1) Hst2).
    - exact (f_equal (fun t => t.1.1.1.2) Hst2). }
  destruct (static_driver_throws IsInput _ _ Hst2) as [Hthrows2 _].
  destruct (restore_device_Input this j p2 w2 d2 drv2 (dev_name dS) ids
              (deviceId saved))
    as (w3' & Hrestore' & Hports3 & Hsub3); try done.
  { by rewrite Hv2. }
  { rewrite <- Hstored. by apply (Hjname devS dS). }
  { by rewrite Hids2. }
  { by rewrite Hnames2. }
  { simpl in Hthrows2. by rewrite Hthrows2. }
  rewrite Hrestore in Hrestore'. injection Hrestore' as <-.
  rewrite Hports3, lookup_insert_eq in Hself3. injection Hself3 as <-. simpl.
  split; [done|]. split; [done|]. exact Hsub3.
Qed.

Lemma Port_fromJson_toJson_witness :
  exists w' self',
    Port_fromJson 1%positive sample_record sample_bound_world = Done w'
    /\ ports w' !! 1%positive = Some self'
    /\ driverId self' = 1
    /\ channel self' = -1
    /\ deviceId self' = 0
    /\ device self' = Some (10%positive, 0)
    /\ subscribed_to w' IsInput 1%positive 10%positive 0.
Proof.
  destruct (Port_fromJson_toJson sample_bound_world
              (input_port (-1) 0 (Some (10%positive, 0))) sample_record
              sample_bound_world 1%positive
              (input_port (-1) 0 (Some (10%positive, 0))))
    as (w' & self' & Hcall & Hself' & Hreg & _ & Hch & Hdev).
  - vm_compute. reflexivity.
  - unfold int_range. simpl. lia.
  - unfold int_range. simpl. lia.
  - reflexivity.
  - intros d Hd _. injection Hd as <-. vm_compute. eexists. reflexivity.
  - apply (bool_decide_unpack _). vm_compute. exact I.
  - discriminate.
  - destruct Hreg as [Hdid Hdrv].
    { apply (bool_decide_unpack _). vm_compute. exact I. }
    exists w', self'. split; [exact Hcall|]. split; [exact Hself'|].
    split; [exact Hdid|]. split; [exact Hch|].
    apply (Hdev eq_refl (10%positive, 0)
             {| dev_name := "Keys"; subscribed := {[ 1%positive ]} |}
             10%positive
             (set_inputDevices
                (<[0 := {| dev_name := "Keys"; subscribed := {[ 1%positive ]} |}]>
                   (inputDevices sample_driver))
                sample_driver)
             [0; 1; 2]).
    + reflexivity.
    + vm_compute. reflexivity.
    + discriminate.
    + vm_compute. reflexivity.
    + simpl. lia.
    + rewrite Hdrv. vm_compute. reflexivity.
    + vm_compute. reflexivity.
    + reflexivity.
    + vm_compute. reflexivity.
    + apply (bool_decide_unpack _). vm_compute. exact I.
Defined.

(** Counterexample to C6 as stated: two enumerated devices of the same name.
    The input port binds device 2, named "Pads" like device 1; the record is
    written and loaded in the same state, where device 2 is still enumerated
    under the name "Pads"; the port comes back bound to device 1. *)
Lemma Port_fromJson_toJson_same_name :
  (let! w := Port_setDeviceId 1%positive 2 sample_world in
   let! self := deref (ports w !! 1%positive) in
   let! j := Port_toJson w self in
   Done (deviceId self, device self, j !! "deviceName"%string))
  = Done (2, Some (10%positive, 2), Some (JString "Pads"))
  /\ (let! w := Port_setDeviceId 1%positive 2 sample_world in
      let! self := deref (ports w !! 1%positive) in
      let! j := Port_toJson w self in
      let! w' := Port_fromJson 1%positive j w in
      let! self' := deref (ports w' !! 1%positive) in
      let! ids := Port_getDeviceIds w' self' in
      let! n := Port_getDeviceName w' self' 2 in
      Done (ids, n, deviceId self', device self'))
     = Done ([0; 1; 2], "Pads"%string, 1, Some (10%positive, 1)).
Proof. split; vm_compute; reflexivity. Qed.

(** The same round trip on an output port: [fromJson] compares the saved
    name with what [Output::getDeviceName] returns, the empty string, and
    the port comes back without a device. *)
Lemma Port_fromJson_toJson_output :
  (let! w := Port_setDeviceId 2%positive 0 sample_world in
   let! self := deref (ports w !! 2%positive) in
   let! j := Port_toJson w self in
   let! w' := Port_fromJson 2%positive j w in
   let! self' := deref (ports w' !! 2%positive) in
   Done (deviceId self, j !! "deviceName"%string, deviceId self', device self'))
  = Done (0, Some (JString "Synth"), -1, None).
Proof. vm_compute. reflexivity. Qed.

(** The same round trip with a device name that is not valid UTF-8:
    [json_string] returns a null pointer, the record gets no "deviceName",
    and the port comes back without a device. *)
Lemma Port_fromJson_toJson_invalid_name :
  (let! w := Port_setDeviceId 1%positive 0 sample_latin_world in
   let! self := deref (ports w !! 1%positive) in
   let! j := Port_toJson w self in
   let! w' := Port_fromJson 1%positive j w in
   let! self' := deref (ports w' !! 1%positive) in
   Done (deviceId self, j !! "deviceName"%string, deviceId self', device self'))
  = Done (0, None, -1, None).
Proof. vm_compute. reflexivity. Qed.

(** The record of a port bound to "Keys", loaded where the driver still
    enumerates and names the device but its subscribe fails: the port comes
    back without a device. *)
Lemma Port_fromJson_toJson_subscribe_throws :
  (let! j := Port_toJson sample_bound_world
               (input_port (-1) 0 (Some (10%positive, 0))) in
   let! w' := Port_fromJson 1%positive j sample_closed_world in
   let! self' := deref (ports w' !! 1%positive) in
   let! n := Port_getDeviceName w' self' 0 in
   Done (j !! "deviceName"%string, n, deviceId self', device self'))
  = Done (Some (JString "Keys"), "Keys"%string, -1, None).
Proof. vm_compute. reflexivity. Qed.

(** * Further properties of midi.cpp *)

(** ** The registry: addDriver, getDriverIds, getDriver *)

(** X1.  [addDriver] with a driver appends: the ids are the former ones
    followed by the new id, every id that was registered keeps its driver,
    and only an id that was not registered resolves to the new driver.
    With a null driver the assertion fails. *)
Theorem addDriver_then_getDriver (drivers : list (Z * positive)) (id0 : Z)
    (d0 : positive) (id : Z) :
  addDriver id0 None drivers = Fault
  /\ exists drivers',
       addDriver id0 (Some d0) drivers = Done drivers'
       /\ getDriverIds drivers' = getDriverIds drivers ++ [id0]
       /\ getDriver drivers' id =
          match getDriver drivers id with
          | Some d => Some d
          | None => if decide (id0 = id) then Some d0 else None
          end.
Proof.
  split; [done|]. eexists. split; [done|]. split.
  - by apply getDriverIds_addDriver with d0.
  - by apply getDriver_addDriver.
Qed.

(** ** Devices: subscribe and unsubscribe *)

Lemma Device_eq dev1 dev2 :
  dev_name dev1 = dev_name dev2 -> subscribed dev1 = subscribed dev2 -> dev1 = dev2.
Proof. destruct dev1, dev2; simpl. by intros -> ->. Qed.

(** X2.  The subscriber set is a set: subscribing twice is subscribing
    once; unsubscribing removes the port and no other; unsubscribing a port
    that is not subscribed changes nothing, so subscribe followed by
    unsubscribe gives back the device as it was.  [OutputDevice] has the
    same two functions. *)
Theorem InputDevice_subscribe_unsubscribe (input : positive) (dev : Device) :
  (InputDevice_subscribe input (InputDevice_subscribe input dev)
   = InputDevice_subscribe input dev)
  /\ input ∈ subscribed (InputDevice_subscribe input dev)
  /\ (input ∉ subscribed (InputDevice_unsubscribe input dev))
  /\ (forall other, other <> input ->
        (other ∈ subscribed (InputDevice_subscribe input dev) <-> other ∈ subscribed dev)
        /\ (other ∈ subscribed (InputDevice_unsubscribe input dev)
            <-> other ∈ subscribed dev))
  /\ (input ∉ subscribed dev ->
        InputDevice_unsubscribe input dev = dev
        /\ InputDevice_unsubscribe input (InputDevice_subscribe input dev) = dev)
  /\ OutputDevice_subscribe = InputDevice_subscribe
  /\ OutputDevice_unsubscribe = InputDevice_unsubscribe.
Proof.
  split; [|split; [|split; [|split; [|split]]]].
  - apply Device_eq; simpl; [done|]. apply set_eq. intros x.
    rewrite !elem_of_union, !elem_of_singleton. tauto.
  - apply InputDevice_subscribe_elem. by left.
  - apply InputDevice_unsubscribe_gone.
  - intros other Hne. split.
    + rewrite InputDevice_subscribe_elem. split; [by intros [?|?] | by right].
    + unfold InputDevice_unsubscribe.
      destruct (decide (input ∈ subscribed dev)); simpl; [|done].
      rewrite elem_of_difference, elem_of_singleton. split; [by intros [? _] | done].
  - intros Hnot. split.
    + unfold InputDevice_unsubscribe. by rewrite decide_False.
    + unfold InputDevice_unsubscribe.
      rewrite decide_True by (apply InputDevice_subscribe_elem; by left).
      apply Device_eq; simpl; [done|]. apply set_eq. intros x.
      rewrite elem_of_difference, elem_of_union, elem_of_singleton. split.
      * intros [[->|?] ?]; done.
      * intros Hx. split; [by right | by intros ->].
  - done.
Qed.

Lemma InputDevice_subscribe_unsubscribe_witness :
  InputDevice_unsubscribe 3%positive
    (InputDevice_subscribe 3%positive
       {| dev_name := "Keys"; subscribed := {[ 1%positive ]} |})
  = {| dev_name := "Keys"; subscribed := {[ 1%positive ]} |}.
Proof.
  destruct (InputDevice_subscribe_unsubscribe 3%positive
              {| dev_name := "Keys"; subscribed := {[ 1%positive ]} |})
    as (_ & _ & _ & _ & Hround & _).
  apply Hround. apply (bool_decide_unpack _). vm_compute. exact I.
Defined.

(** ** InputQueue: what is kept *)

(** X3.  The queue keeps the oldest messages, in the order of arrival: a
    sequence of [onMessage] calls appends the first messages of the
    sequence until the queue holds [queueMaxSize] messages, and drops all
    the later ones (all of them when [queueMaxSize] is not above the
    length). *)
Theorem InputQueue_run_keeps_oldest (q : InputQueue) (messages : list Message) :
  int_range (queueMaxSize q) ->
  Z.of_nat (length (queue q)) < 2 ^ 31 ->
  queue (InputQueue_run messages q)
  = queue q
    ++ take (Z.to_nat (queueMaxSize q - Z.of_nat (length (queue q)))) messages.
Proof.
  unfold InputQueue_run. revert q.
  induction messages as [|m rest IH]; intros q Hmax Hlen; simpl.
  - by rewrite take_nil, app_nil_r.
  - unfold InputQueue_onMessage at 2.
    rewrite to_int_id by (unfold int_range; lia).
    destruct (decide (Z.of_nat (length (queue q)) >= queueMaxSize q)) as [Hfull|Hroom].
    + rewrite IH by done.
      by replace (Z.to_nat (queueMaxSize q - Z.of_nat (length (queue q))))
        with 0%nat by lia.
    + rewrite IH; simpl; [| done | rewrite length_app; simpl; unfold int_range in Hmax; lia].
      rewrite length_app; simpl.
      replace (Z.to_nat (queueMaxSize q - Z.of_nat (length (queue q))))
        with (S (Z.to_nat (queueMaxSize q - Z.of_nat (length (queue q) + 1))))
        by lia.
      simpl. by rewrite <- app_assoc.
Qed.

Lemma InputQueue_run_keeps_oldest_witness :
  queue (InputQueue_run [note_on 0; note_on 1; note_on 2; note_on 3]
           {| queueMaxSize := 3; queue := [note_on 9] |})
  = [note_on 9; note_on 0; note_on 1].
Proof.
  apply (InputQueue_run_keeps_oldest {| queueMaxSize := 3; queue := [note_on 9] |}
           [note_on 0; note_on 1; note_on 2; note_on 3]).
  - unfold int_range. simpl. lia.
  - simpl. lia.
Defined.

(** ** InputDevice::onMessage: the fan-out *)

Lemma is_zero_time_zero t : is_zero_time t = true <-> exists s, t = S754_zero s.
Proof.
  unfold is_zero_time, SFeqb, SFcompare. split.
  - destruct t as [s| [] | |[] mt et]; try done. intros _. by exists s.
  - by intros [s ->].
Qed.

(** X5.  What the handlers are given differs from the incoming message in
    the timestamp at most; the timestamp is replaced by the reading of the
    clock exactly when it is one of the two floating-point zeros (-0.0 is
    "unset" too), and a NaN, an infinity or any other number is passed
    on. *)
Theorem InputDevice_onMessage_stamps_zeros_only (now : spec_float)
    (ps : gmap positive Port) (dev : Device) (m : Message) (calls : list Call)
    (input : positive) (msg : Message) :
  InputDevice_onMessage now ps dev m = Done calls ->
  OnMessage input msg ∈ calls ->
  statusAndChannel msg = statusAndChannel m
  /\ data1 msg = data1 m /\ data2 msg = data2 m
  /\ timestamp msg = match timestamp m with
                     | S754_zero _ => now
                     | t => t
                     end.
Proof.
  intros Hcalls Hmsg.
  rewrite (InputDevice_onMessage_delivers _ _ _ _ _ _ _ Hcalls Hmsg).
  destruct (is_zero_time (timestamp m)) eqn:Hzero.
  - apply is_zero_time_zero in Hzero as [s Hs]. simpl. by rewrite Hs.
  - repeat split. by destruct (timestamp m).
Qed.

Lemma InputDevice_onMessage_stamps_zeros_only_witness :
  timestamp (set_timestamp three_seconds (note_on 2)) = three_seconds.
Proof.
  destruct (InputDevice_onMessage_stamps_zeros_only three_seconds sample_inputs
              sample_keys
              {| statusAndChannel := 146; data1 := 60; data2 := 100;
                 timestamp := S754_zero true |}
              [ContextSet 7; OnMessage 1%positive (set_timestamp three_seconds (note_on 2));
               ContextSet 7]
              1%positive (set_timestamp three_seconds (note_on 2)))
    as (_ & _ & _ & Hts).
  - vm_compute. reflexivity.
  - apply elem_of_cons. right. apply elem_of_cons. left. reflexivity.
  - exact Hts.
Defined.

Lemma fan_out_receivers ps msg subs calls :
  fan_out ps msg subs = Done calls ->
  receivers calls = filter (fun i => accepts ps msg i) subs.
Proof.
  revert calls. induction subs as [|j rest IH]; intros calls; simpl.
  - by intros [= <-].
  - destruct (ps !! j) as [q|] eqn:Hq; simpl; [|done].
    destruct (fan_out ps msg rest) as [calls'|] eqn:Hrest; simpl; [|done].
    specialize (IH calls' eq_refl). rewrite filter_cons.
    assert (accepts ps msg j
            = negb (bool_decide (getStatus msg <> 0xf) && bool_decide (0 <= channel q)
                    && bool_decide (getChannel msg <> channel q))) as Hacc
      by (unfold accepts; by rewrite Hq).
    destruct (bool_decide (getStatus msg <> 0xf) && bool_decide (0 <= channel q)
              && bool_decide (getChannel msg <> channel q)); simpl in Hacc;
      intros [= <-]; unfold receivers in *; simpl.
    + rewrite decide_False by (rewrite Hacc; intros H; done). done.
    + rewrite decide_True by (by rewrite Hacc). by f_equal.
Qed.

(** X6.  The loop of the fan-out, in whatever order the subscriber set is
    traversed: over any enumeration of the set that names each subscriber
    once, it calls the handlers of exactly the subscribed ports that pass
    the channel test, each once, and all with one and the same message, the
    incoming one with its timestamp set when it was unset. *)
Theorem InputDevice_onMessage_once_each (now : spec_float)
    (ps : gmap positive Port) (dev : Device) (m : Message)
    (subs : list positive) (calls : list Call) :
  NoDup subs ->
  list_to_set subs = subscribed dev ->
  fan_out ps (if is_zero_time (timestamp m) then set_timestamp now m else m) subs
  = Done calls ->
  NoDup (receivers calls)
  /\ (forall i, i ∈ receivers calls <-> i ∈ subscribed dev /\ accepts ps m i)
  /\ (forall i mi,
        OnMessage i mi ∈ calls ->
        mi = if is_zero_time (timestamp m) then set_timestamp now m else m).
Proof.
  intros Hnodup Hsubs Hcalls.
  assert (receivers calls = filter (fun i => accepts ps m i) subs) as Hrec.
  { rewrite (fan_out_receivers _ _ _ _ Hcalls).
    apply list_filter_iff. intros i. unfold accepts.
    by rewrite stamped_status, stamped_channel. }
  split; [|split].
  - rewrite Hrec. by apply NoDup_filter.
  - intros i. rewrite Hrec, list_elem_of_filter, <- Hsubs, elem_of_list_to_set.
    split; intros [? ?]; done.
  - intros i mi Hi. rewrite (fan_out_OnMessage _ _ _ _ _ _ Hcalls) in Hi.
    by destruct Hi.
Qed.

Lemma InputDevice_onMessage_once_each_witness :
  NoDup (receivers [ContextSet 7; ContextSet 7; OnMessage 1%positive (note_on 2)]).
Proof.
  destruct (InputDevice_onMessage_once_each (S754_zero false) sample_inputs
              sample_keys (note_on 2) [3%positive; 1%positive]
              [ContextSet 7; ContextSet 7; OnMessage 1%positive (note_on 2)])
    as (Hrec & _).
  - apply (bool_decide_unpack _). vm_compute. exact I.
  - apply (bool_decide_unpack _). vm_compute. exact I.
  - vm_compute. reflexivity.
  - exact Hrec.
Defined.

Lemma fan_out_context ps msg subs calls pre i mi post :
  fan_out ps msg subs = Done calls ->
  calls = pre ++ OnMessage i mi :: post ->
  exists pre' p, pre = pre' ++ [ContextSet (context p)] /\ ps !! i = Some p.
Proof.
  revert calls pre. induction subs as [|j rest IH]; intros calls pre; simpl.
  - intros [= <-] Heq. by destruct pre.
  - destruct (ps !! j) as [q|] eqn:Hq; simpl; [|done].
    destruct (fan_out ps msg rest) as [calls'|] eqn:Hrest; simpl; [|done].
    destruct (bool_decide (getStatus msg <> 0xf) && bool_decide (0 <= channel q)
              && bool_decide (getChannel msg <> channel q));
      intros [= <-] Heq.
    + destruct pre as [|c pre]; simpl in Heq; [done|]. injection Heq as <- Heq.
      destruct (IH calls' pre eq_refl Heq) as (pre' & p & -> & Hp).
      by exists (ContextSet (context q) :: pre'), p.
    + destruct pre as [|c pre]; simpl in Heq; [done|]. injection Heq as <- Heq.
      destruct pre as [|c pre]; simpl in Heq.
      * injection Heq as <- _ _. by exists [], q.
      * injection Heq as <- Heq.
        destruct (IH calls' pre eq_refl Heq) as (pre' & p & -> & Hp).
        by exists (ContextSet (context q) :: OnMessage j msg :: pre'), p.
Qed.

(** X7.  Every call of a handler comes right after [contextSet] with the
    context that the receiving port captured: whatever thread delivers the
    message, the handler runs under the context of its own port. *)
Theorem InputDevice_onMessage_sets_context (now : spec_float)
    (ps : gmap positive Port) (dev : Device) (m : Message) (calls : list Call)
    (pre post : list Call) (input : positive) (msg : Message) :
  InputDevice_onMessage now ps dev m = Done calls ->
  calls = pre ++ OnMessage input msg :: post ->
  exists pre' p,
    ps !! input = Some p
    /\ calls = pre' ++ ContextSet (context p) :: OnMessage input msg :: post.
Proof.
  intros Hcalls Heq.
  destruct (fan_out_context _ _ _ _ _ _ _ _ Hcalls Heq) as (pre' & p & -> & Hp).
  exists pre', p. split; [done|]. by rewrite Heq, <- app_assoc.
Qed.

Lemma InputDevice_onMessage_sets_context_witness :
  exists pre' p,
    sample_inputs !! 1%positive = Some p
    /\ [ContextSet 7; OnMessage 1%positive (note_on 2); ContextSet 7]
       = pre' ++ ContextSet (context p) :: OnMessage 1%positive (note_on 2)
                 :: [ContextSet 7].
Proof.
  apply (InputDevice_onMessage_sets_context (S754_zero false) sample_inputs
           sample_keys (note_on 2)
           [ContextSet 7; OnMessage 1%positive (note_on 2); ContextSet 7]
           [ContextSet 7] [ContextSet 7] 1%positive (note_on 2)).
  - vm_compute. reflexivity.
  - reflexivity.
Defined.

Lemma fan_out_dangling ps msg subs i :
  i ∈ subs -> ps !! i = None -> fan_out ps msg subs = Fault.
Proof.
  intros Hin Hi. induction subs as [|j rest IH]; [by apply elem_of_nil in Hin|].
  simpl. apply elem_of_cons in Hin as [<-|Hin].
  - by rewrite Hi.
  - rewrite (IH Hin). by destruct (ps !! j).
Qed.

(** X8.  The fan-out reads every subscribed address, whatever the message:
    if one subscriber is not a live port any more, the call has no defined
    result, even when the channel test would have skipped that port. *)
Theorem InputDevice_onMessage_dead_subscriber (now : spec_float)
    (ps : gmap positive Port) (dev : Device) (m : Message) (input : positive) :
  input ∈ subscribed dev -> ps !! input = None ->
  InputDevice_onMessage now ps dev m = Fault.
Proof.
  intros Hin Hdead. unfold InputDevice_onMessage.
  apply fan_out_dangling with input; [by apply elem_of_set_order | done].
Qed.

Lemma InputDevice_onMessage_dead_subscriber_witness :
  InputDevice_onMessage (S754_zero false) (delete 3%positive sample_inputs)
    sample_keys (note_on 2) = Fault.
Proof.
  apply (InputDevice_onMessage_dead_subscriber (S754_zero false)
           (delete 3%positive sample_inputs) sample_keys (note_on 2) 3%positive).
  - apply (bool_decide_unpack _). vm_compute. exact I.
  - vm_compute. reflexivity.
Defined.

(** ** Output to Input *)

(** X9.  A message that an output port with a channel c in 0..15 sends,
    once an input device fans it out: if it is not a system message it
    reaches a subscribed input port exactly when the filter of that port is
    negative or equal to c, whatever channel the message had before. *)
Theorem Output_sendMessage_then_onMessage (out : Port) (m : Message)
    (now : spec_float) (ps : gmap positive Port) (dev : Device)
    (input : positive) (p : Port) :
  wf_message m -> getStatus m <> 0xf ->
  0 <= channel out <= 15 ->
  is_Some (outputDevice out) ->
  subscribed dev ⊆ dom ps ->
  input ∈ subscribed dev -> ps !! input = Some p ->
  exists odev msg calls,
    Output_sendMessage out m = Some (odev, msg)
    /\ InputDevice_onMessage now ps dev msg = Done calls
    /\ (invoked input calls <-> channel p < 0 \/ channel p = channel out).
Proof.
  intros Hwf Hst Hch [odev Hodev] Hlive Hin Hp.
  unfold Output_sendMessage. rewrite Hodev.
  rewrite bool_decide_true by done. rewrite bool_decide_true by lia. simpl.
  destruct (InputDevice_onMessage_total now ps dev (setChannel (channel out) m) Hlive)
    as [calls Hcalls].
  exists odev, (setChannel (channel out) m), calls.
  split; [done|]. split; [done|].
  rewrite (InputDevice_onMessage_invoked _ _ _ _ _ _ _ Hcalls Hin Hp).
  unfold passes_filter.
  rewrite (getStatus_setChannel _ _ Hwf), getChannel_setChannel_nibble by lia.
  split.
  - intros [H|[H|H]]; [done | by left | by right].
  - intros [H|H]; right; [by left | by right].
Qed.

Lemma Output_sendMessage_then_onMessage_witness :
  exists odev msg calls,
    Output_sendMessage (output_port 4 0 (Some (10%positive, 0))) (note_on 2)
    = Some (odev, msg)
    /\ InputDevice_onMessage (S754_zero false) sample_inputs sample_keys msg
       = Done calls
    /\ (invoked 3%positive calls <-> 4 < 0 \/ 4 = 4).
Proof.
  apply (Output_sendMessage_then_onMessage
           (output_port 4 0 (Some (10%positive, 0))) (note_on 2) (S754_zero false)
           sample_inputs sample_keys 3%positive
           (input_port 4 0 (Some (10%positive, 0)))).
  - unfold wf_message, uint8_range. vm_compute. repeat split; discriminate.
  - vm_compute. discriminate.
  - simpl. lia.
  - simpl. eexists. reflexivity.
  - apply (bool_decide_unpack _). vm_compute. exact I.
  - apply (bool_decide_unpack _). vm_compute. exact I.
  - reflexivity.
Defined.

(** ** Port::getChannelName *)

(** X10.  The label of a channel: "All channels" for every negative
    channel and for no other; for a channel that is not negative the label
    is "Channel " followed by the channel plus one in decimal, so that two
    such channels have the same label only if they are equal; at the
    largest [int] the sum overflows. *)
Theorem Port_getChannelName_labels (c1 c2 : Z) :
  (Port_getChannelName c1 = Done "All channels"%string <-> c1 < 0)
  /\ (0 <= c1 < 2 ^ 31 - 1 ->
        Port_getChannelName c1 = Done ("Channel " +:+ pretty (c1 + 1)))
  /\ (0 <= c1 < 2 ^ 31 - 1 -> 0 <= c2 < 2 ^ 31 - 1 ->
        Port_getChannelName c1 = Port_getChannelName c2 -> c1 = c2)
  /\ (2 ^ 31 - 1 <= c1 -> Port_getChannelName c1 = Fault).
Proof.
  assert (forall c, 0 <= c < 2 ^ 31 - 1 ->
            Port_getChannelName c = Done ("Channel " +:+ pretty (c + 1))) as Hlabel.
  { intros c Hc. unfold Port_getChannelName.
    rewrite decide_False by lia. by rewrite decide_True by lia. }
  split; [|split; [|split]].
  - unfold Port_getChannelName. destruct (decide (c1 < 0)); [done|].
    destruct (decide (c1 + 1 < 2 ^ 31)); [|done].
    split; [|lia]. simpl. intros [= H].
  - apply Hlabel.
  - intros H1 H2. rewrite (Hlabel c1 H1), (Hlabel c2 H2). intros [= Heq].
    simpl in Heq. pose proof (pretty_Z_inj _ _ Heq). lia.
  - intros Hc. unfold Port_getChannelName.
    rewrite decide_False by lia. by rewrite decide_False by lia.
Qed.

Lemma Port_getChannelName_labels_witness :
  Port_getChannelName 0 = Done "Channel 1"%string.
Proof.
  destruct (Port_getChannelName_labels 0 0) as (_ & Hlabel & _).
  rewrite Hlabel; [vm_compute; reflexivity | lia].
Defined.

(** ** setDeviceId on every id *)

Lemma opened_device_Some w self id dev :
  opened_device w self id = Some dev ->
  exists d drv dv,
    dev = (d, id) /\ driver self = Some d /\ 0 <= id
    /\ driverHeap w !! d = Some drv
    /\ (id ∉ subscribe_throws (vptr self) drv)
    /\ devices_of (vptr self) drv !! id = Some dv.
Proof.
  unfold opened_device. destruct (driver self) as [d|]; [|done].
  destruct (decide (0 <= id)); [|done].
  destruct (driverHeap w !! d) as [drv|] eqn:Hdrv; [|done].
  destruct (decide (id ∈ subscribe_throws (vptr self) drv)) as [|Hok]; [done|].
  destruct (devices_of (vptr self) drv !! id) as [dv|] eqn:Hdv; [|done].
  intros [= <-]. by exists d, drv, dv.
Qed.

(** The complete account of [setDeviceId] on a port whose driver, if any,
    is live. *)
Lemma Port_setDeviceId_cases this self w id :
  ports w !! this = Some self ->
  (forall d, driver self = Some d -> is_Some (driverHeap w !! d)) ->
  exists w',
    Port_setDeviceId this id w = Done w'
    /\ static_world w' = static_world w
    /\ ports w' = <[this := assign_device (vptr self) (opened_device w self id)
                              (device_id_of (opened_device w self id)) self]> (ports w)
    /\ forall d' k,
         subscribed_to w' (vptr self) this d' k <->
         (subscribed_to w (vptr self) this d' k
          /\ closed_device w self <> Some (d', k))
         \/ opened_device w self id = Some (d', k).
Proof.
  intros Hself Hlive.
  assert (driver_live w self) as Hlive' by (intros d Hd _; by apply Hlive).
  destruct (opened_device w self id) as [dev|] eqn:Hopen.
  - apply opened_device_Some in Hopen
      as (d & drv & dv & -> & Hd & Hid & Hdrv & Hok & Hdv).
    destruct (Port_setDeviceId_bind this self w d drv dv id Hself Hd Hdrv Hok Hdv Hid)
      as (w' & Hcall & Hports & Hstatic & Hsubs).
    exists w'. split; [done|]. split; [done|]. split; [done|].
    intros d' k. rewrite Hsubs. split.
    + intros [H|[-> ->]]; [by left | by right].
    + intros [H|Heq]; [by left|]. right. by injection Heq as <- <-.
  - rewrite (Port_setDeviceId_phases _ _ _ _ Hself).
    destruct (destroy_device_spec this self w Hlive')
      as (w1 & -> & Hports & Hstatic & Hsubs); simpl.
    assert (create_device (vptr self) this id self
              (set_port this (assign_device (vptr self) None (-1) self) w1)
            = Done (set_port this (assign_device (vptr self) None (-1) self) w1))
      as ->.
    { unfold opened_device in Hopen. unfold create_device.
      destruct (driver self) as [d|] eqn:Hd; [|done].
      destruct (decide (0 <= id)); [|done].
      destruct (Hlive d eq_refl) as [drv Hdrv]. rewrite Hdrv in Hopen.
      destruct (static_world_lookup _ _ _ _ Hstatic Hdrv) as (drv1 & Hdrv1 & Hst1).
      pose proof (static_driver_lookup (vptr self) _ _ id Hst1) as Hnames.
      destruct (static_driver_throws (vptr self) _ _ Hst1) as [Hthrows1 _].
      simpl. rewrite Hdrv1; simpl.
      destruct (decide (id ∈ subscribe_throws (vptr self) drv)) as [Hthrows|Hok].
      { rewrite Driver_subscribe_Throws; [done|]. left. by rewrite Hthrows1. }
      destruct (devices_of (vptr self) drv !! id) eqn:Hdv; [done|].
      destruct (devices_of (vptr self) drv1 !! id) eqn:Hdv1; [done|].
      rewrite Driver_subscribe_Throws; [done | by right]. }
    eexists. split; [done|]. split; [done|]. split; [by simpl; rewrite Hports|].
    intros d' k.
    change (subscribed_to (set_port ?t ?p ?w0) ?c ?t' ?d0 ?k0)
      with (subscribed_to w0 c t' d0 k0).
    rewrite Hsubs. split; [by left | by intros [?|?]].
Qed.

Lemma Port_setDeviceId_keeps_consistent this self w id :
  ports w !! this = Some self ->
  (forall d, driver self = Some d -> is_Some (driverHeap w !! d)) ->
  binding_consistent w this self ->
  unsubscribe_returns w self ->
  exists w' self',
    Port_setDeviceId this id w = Done w'
    /\ static_world w' = static_world w
    /\ ports w' = <[this := self']> (ports w)
    /\ self' = assign_device (vptr self) (opened_device w self id)
                 (device_id_of (opened_device w self id)) self
    /\ binding_consistent w' this self'
    /\ (forall d' k, subscribed_to w' (vptr self) this d' k
                     <-> opened_device w self id = Some (d', k)).
Proof.
  intros Hself Hlive Hcons Hreturns.
  destruct (Port_setDeviceId_cases this self w id Hself Hlive)
    as (w' & Hcall & Hstatic & Hports & Hsubs).
  eexists w', _. split; [done|]. split; [done|]. split; [done|]. split; [done|].
  assert (forall d' k, subscribed_to w' (vptr self) this d' k
                       <-> opened_device w self id = Some (d', k)) as Hexact.
  { intros d' k. rewrite Hsubs. split; [|by right].
    intros [H|H]; [|done]. by apply binding_consistent_closed in H. }
  split; [|done].
  destruct (assign_device_fields (vptr self) (opened_device w self id)
              (device_id_of (opened_device w self id)) self)
    as (Hv & _ & _ & _ & Hd & Hid & _).
  intros d' k. rewrite Hv, Hexact, Hd, Hid. split.
  - intros Hopen. rewrite Hopen. simpl.
    apply opened_device_Some in Hopen as (d & drv & dv & Heq' & Hd' & Hk & _).
    injection Heq' as -> ->. done.
  - intros (Hd' & Hk & Hpos).
    destruct (opened_device w self id) as [[d0 k0]|] eqn:Hopen; simpl in Hk; [|lia].
    apply opened_device_Some in Hopen as (d & drv & dv & [= -> ->] & Hd0 & _).
    rewrite Hd' in Hd0. by simplify_eq.
Qed.

(** A way to check the agreement on a given state: table by table. *)
Lemma binding_consistent_intro w this self :
  map_Forall (fun (d : positive) (drv : Driver) =>
      map_Forall (fun (id : Z) (dev : Device) =>
          this ∈ subscribed dev ->
          driver self = Some d /\ deviceId self = id /\ 0 <= id)
        (devices_of (vptr self) drv))
    (driverHeap w) ->
  (0 <= deviceId self -> forall d, driver self = Some d ->
     subscribed_to w (vptr self) this d (deviceId self)) ->
  binding_consistent w this self.
Proof.
  intros Htables Hbound d id. split.
  - intros (drv & dev & Hdrv & Hdev & Hin). by apply (Htables d drv Hdrv id dev Hdev).
  - intros (Hd & <- & Hid). by apply Hbound.
Qed.



(** ** Other ports are left alone *)

Lemma bind_Done {A B : Type} (m : outcome A) (k : A -> outcome B) b :
  bind m k = Done b -> exists a, m = Done a /\ k a = Done b.
Proof. destruct m as [a|]; simpl; [|done]. intros H. by exists a. Qed.

Lemma same_for_refl other w : same_for other w w.
Proof. by split. Qed.

Lemma same_for_trans other w1 w2 w3 :
  same_for other w1 w2 -> same_for other w2 w3 -> same_for other w1 w3.
Proof.
  intros [Hp1 Hs1] [Hp2 Hs2]. split; [by rewrite Hp2|].
  intros cls d k. by rewrite Hs2.
Qed.

Lemma same_for_set_port other this p w :
  other <> this -> same_for other w (set_port this p w).
Proof. intros Hne. split; [by apply lookup_insert_ne | done]. Qed.

Lemma same_for_set_driver other w d drv cls id dev dev' :
  driverHeap w !! d = Some drv ->
  devices_of cls drv !! id = Some dev ->
  (other ∈ subscribed dev' <-> other ∈ subscribed dev) ->
  same_for other w
    (set_driver d (with_devices cls (<[id := dev']> (devices_of cls drv)) drv) w).
Proof.
  intros Hdrv Hdev Hsame. split; [done|]. intros cls' d' k.
  unfold subscribed_to; simpl. destruct (decide (d' = d)) as [->|Hne].
  2: { by rewrite lookup_insert_ne. }
  rewrite lookup_insert_eq. split.
  - intros (drv0 & dev0 & [= <-] & Hdev0 & Hin). exists drv.
    destruct cls, cls'; simpl in *;
      try (by exists dev0);
      (destruct (decide (k = id)) as [->|Hk];
       [rewrite lookup_insert_eq in Hdev0; injection Hdev0 as <-;
        exists dev; split; [done|]; split; [done|]; by apply Hsame
       |rewrite lookup_insert_ne in Hdev0 by done; by exists dev0]).
  - intros (drv0 & dev0 & Hdrv0 & Hdev0 & Hin). rewrite Hdrv in Hdrv0.
    injection Hdrv0 as <-.
    assert (exists dev1,
              devices_of cls'
                (with_devices cls (<[id := dev']> (devices_of cls drv)) drv) !! k
              = Some dev1 /\ other ∈ subscribed dev1) as (dev1 & Hdev1 & Hin1).
    { destruct cls, cls'; simpl in *;
        try (by exists dev0);
        (destruct (decide (k = id)) as [->|Hk];
         [rewrite lookup_insert_eq; rewrite Hdev in Hdev0; injection Hdev0 as <-;
          exists dev'; split; [done|]; by apply Hsame
         |rewrite lookup_insert_ne by done; by exists dev0]). }
    by eexists _, dev1.
Qed.

Lemma destroy_device_frame cls this self w w1 other :
  destroy_device cls this self w = Done w1 -> other <> this ->
  same_for other w w1 /\ drivers w1 = drivers w.
Proof.
  unfold destroy_device. intros Hcall Hne.
  destruct (driver self) as [d|]; [|injection Hcall as <-; split; [apply same_for_refl | done]].
  destruct (decide (0 <= deviceId self));
    [|injection Hcall as <-; split; [apply same_for_refl | done]].
  destruct (driverHeap w !! d) as [drv|] eqn:Hdrv; simpl in Hcall; [|done].
  destruct (decide (deviceId self ∈ unsubscribe_throws cls drv)) as [Hthrows|Hok].
  { rewrite Driver_unsubscribe_Throws in Hcall by by left.
    injection Hcall as <-. split; [apply same_for_refl | done]. }
  destruct (devices_of cls drv !! deviceId self) as [dev|] eqn:Hdev.
  - rewrite (Driver_unsubscribe_Returns _ _ _ _ _ Hok Hdev) in Hcall.
    injection Hcall as <-. split; [|done].
    apply same_for_set_driver with dev; [done | done |].
    unfold InputDevice_unsubscribe.
    destruct (decide (this ∈ subscribed dev)); simpl; [|done].
    rewrite elem_of_difference, elem_of_singleton. split; [by intros [? _] | done].
  - rewrite Driver_unsubscribe_Throws in Hcall by by right.
    injection Hcall as <-. split; [apply same_for_refl | done].
Qed.

Lemma create_device_frame cls this id self w2 w' other :
  create_device cls this id self w2 = Done w' -> other <> this ->
  same_for other w2 w' /\ drivers w' = drivers w2.
Proof.
  unfold create_device. intros Hcall Hne.
  destruct (driver self) as [d|]; [|injection Hcall as <-; split; [apply same_for_refl | done]].
  destruct (decide (0 <= id));
    [|injection Hcall as <-; split; [apply same_for_refl | done]].
  destruct (driverHeap w2 !! d) as [drv|] eqn:Hdrv; simpl in Hcall; [|done].
  destruct (decide (id ∈ subscribe_throws cls drv)) as [Hthrows|Hok].
  { rewrite Driver_subscribe_Throws in Hcall by by left.
    injection Hcall as <-. split; [apply same_for_refl | done]. }
  destruct (devices_of cls drv !! id) as [dev|] eqn:Hdev.
  - rewrite (Driver_subscribe_Returns _ _ _ _ _ Hok Hdev) in Hcall.
    injection Hcall as <-. split; [|done].
    eapply same_for_trans; [|by apply same_for_set_port].
    apply same_for_set_driver with dev; [done | done |].
    rewrite InputDevice_subscribe_elem. split; [by intros [?|?] | by right].
  - rewrite Driver_subscribe_Throws in Hcall by by right.
    injection Hcall as <-. split; [apply same_for_refl | done].
Qed.

Lemma Port_setDeviceId_frame this id w w' other :
  Port_setDeviceId this id w = Done w' -> other <> this ->
  same_for other w w' /\ drivers w' = drivers w.
Proof.
  intros Hcall Hne.
  destruct (ports w !! this) as [self|] eqn:Hself;
    [|by unfold Port_setDeviceId in Hcall; rewrite Hself in Hcall].
  rewrite (Port_setDeviceId_phases _ _ _ _ Hself) in Hcall.
  apply bind_Done in Hcall as (w1 & Hdestroy & Hcreate).
  destruct (destroy_device_frame _ _ _ _ _ other Hdestroy Hne) as [Hsame1 Hdrivers1].
  destruct (create_device_frame _ _ _ _ _ _ other Hcreate Hne) as [Hsame2 Hdrivers2].
  split.
  - eapply same_for_trans; [exact Hsame1|].
    eapply same_for_trans; [|exact Hsame2]. by apply same_for_set_port.
  - by rewrite Hdrivers2.
Qed.

Lemma Port_setDriverId_frame this id w w' other :
  Port_setDriverId this id w = Done w' -> other <> this ->
  same_for other w w' /\ drivers w' = drivers w.
Proof.
  unfold Port_setDriverId. intros Hcall Hne.
  apply bind_Done in Hcall as (w1 & Hunbind & Hcall).
  apply bind_Done in Hcall as (self & Hself & Hcall).
  destruct (Port_setDeviceId_frame _ _ _ _ other Hunbind Hne) as [Hsame Hdrivers].
  destruct (getDriver (drivers w1) id).
  - injection Hcall as <-. split; [|done].
    eapply same_for_trans; [exact Hsame|]. by apply same_for_set_port.
  - destruct (drivers w1) eqn:Hd1; [done|]. injection Hcall as <-.
    split; [|simpl; congruence].
    eapply same_for_trans; [exact Hsame|]. by apply same_for_set_port.
Qed.

Lemma restore_device_frame this j self w w' other :
  restore_device this j self w = Done w' -> other <> this ->
  same_for other w w' /\ drivers w' = drivers w.
Proof.
  unfold restore_device. intros Hcall Hne.
  destruct (driver self); [|injection Hcall as <-; split; [apply same_for_refl | done]].
  destruct (j !! "deviceName"%string);
    [|injection Hcall as <-; split; [apply same_for_refl | done]].
  apply bind_Done in Hcall as (n & _ & Hcall).
  apply bind_Done in Hcall as (ids & _ & Hcall).
  apply bind_Done in Hcall as ([id|] & _ & Hcall).
  - by apply Port_setDeviceId_frame with this id.
  - injection Hcall as <-. split; [apply same_for_refl | done].
Qed.

Lemma Port_fromJson_frame this j w w' other :
  Port_fromJson this j w = Done w' -> other <> this ->
  same_for other w w' /\ drivers w' = drivers w.
Proof.
  rewrite Port_fromJson_blocks. intros Hcall Hne.
  apply bind_Done in Hcall as (w1 & Hstep1 & Hcall).
  apply bind_Done in Hcall as (w2 & Hstep2 & Hcall).
  apply bind_Done in Hcall as (self2 & _ & Hcall).
  apply bind_Done in Hcall as (w3 & Hrestore & Hcall).
  apply bind_Done in Hcall as (self3 & _ & Hcall).
  destruct (Port_setDriverId_frame _ _ _ _ other Hstep1 Hne) as [Hsame1 Hd1].
  assert (same_for other w1 w2 /\ drivers w2 = drivers w1) as [Hsame2 Hd2].
  { destruct (j !! "driver"%string).
    - by apply Port_setDriverId_frame with this (to_int (json_integer_value j0)).
    - injection Hstep2 as <-. split; [apply same_for_refl | done]. }
  destruct (restore_device_frame _ _ _ _ _ other Hrestore Hne) as [Hsame3 Hd3].
  assert (same_for other w w3) as Hsame
    by (eapply same_for_trans; [exact Hsame1|]; by eapply same_for_trans).
  assert (drivers w3 = drivers w) as Hd by (by rewrite Hd3, Hd2).
  destruct (j !! "channel"%string); injection Hcall as <-.
  - split; [|done]. eapply same_for_trans; [exact Hsame|]. by apply same_for_set_port.
  - done.
Qed.

(** X12.  Whatever [setDeviceId], [setDriverId] or [fromJson] does to one
    port, the registry stays as it is and every other port stays the same
    object and a subscriber of the same devices. *)
Theorem Port_calls_leave_others (this other : positive) (w w' : World) (id : Z)
    (j : gmap string json_t) :
  other <> this ->
  Port_setDeviceId this id w = Done w'
  \/ Port_setDriverId this id w = Done w'
  \/ Port_fromJson this j w = Done w' ->
  drivers w' = drivers w
  /\ ports w' !! other = ports w !! other
  /\ forall cls d k, subscribed_to w' cls other d k <-> subscribed_to w cls other d k.
Proof.
  intros Hne Hcall.
  assert (same_for other w w' /\ drivers w' = drivers w) as [[Hports Hsubs] Hdrivers].
  { destruct Hcall as [Hcall|[Hcall|Hcall]].
    - by apply Port_setDeviceId_frame with this id.
    - by apply Port_setDriverId_frame with this id.
    - by apply Port_fromJson_frame with this j. }
  done.
Qed.

Lemma Port_calls_leave_others_witness :
  exists w',
    Port_setDriverId 2%positive 2 sample_bound_world = Done w'
    /\ ports w' !! 1%positive = Some (input_port (-1) 0 (Some (10%positive, 0)))
    /\ (subscribed_to w' IsInput 1%positive 10%positive 0
        <-> subscribed_to sample_bound_world IsInput 1%positive 10%positive 0).
Proof.
  destruct (Port_setDriverId_spec 2%positive 2 sample_bound_world
              (output_port 0 (-1) None) 20%positive 2) as (w' & Hcall & _).
  - reflexivity.
  - intros d _ H. simpl in H. lia.
  - reflexivity.
  - exists w'. split; [exact Hcall|].
    destruct (Port_calls_leave_others 2%positive 1%positive sample_bound_world w' 2 ∅)
      as (_ & Hports & Hsubs).
    + discriminate.
    + right. left. exact Hcall.
    + split; [rewrite Hports; reflexivity | apply Hsubs].
Defined.

(** ** setDriverId, reset and the destructors *)



Lemma sample_bound_world_consistent :
  binding_consistent sample_bound_world 1%positive
    (input_port (-1) 0 (Some (10%positive, 0))).
Proof.
  apply binding_consistent_intro.
  - apply (bool_decide_unpack _). vm_compute. exact I.
  - intros _ d Hd. injection Hd as <-. eexists _, _. split; [reflexivity|].
    split; [reflexivity|]. apply (bool_decide_unpack _). vm_compute. exact I.
Defined.

Lemma sample_bound_world_live :
  driver_live sample_bound_world (input_port (-1) 0 (Some (10%positive, 0))).
Proof. intros d Hd _. injection Hd as <-. vm_compute. eexists. reflexivity. Defined.

Lemma sample_bound_world_returns :
  unsubscribe_returns sample_bound_world (input_port (-1) 0 (Some (10%positive, 0))).
Proof.
  intros d drv Hd _ Hdrv. injection Hd as <-.
  assert (driverHeap sample_bound_world !! 10%positive
          = Some (set_inputDevices
                    (<[0 := {| dev_name := "Keys"; subscribed := {[ 1%positive ]} |}]>
                       (inputDevices sample_driver))
                    sample_driver)) as Hheap by (vm_compute; reflexivity).
  rewrite Hheap in Hdrv. injection Hdrv as <-.
  apply (bool_decide_unpack _). vm_compute. exact I.
Defined.





Lemma Port_setDriverId_empty this id w :
  drivers w = [] -> Port_setDriverId this id w = Fault.
Proof.
  intros Hempty. unfold Port_setDriverId.
  destruct (Port_setDeviceId this (-1) w) as [w1|] eqn:Hunbind; simpl; [|done].
  destruct (Port_setDeviceId_frame this (-1) w w1 (Pos.succ this) Hunbind) as [_ Hd];
    [lia|].
  destruct (ports w1 !! this); simpl; [|done]. by rewrite Hd, Hempty.
Qed.

(** X14.  With no driver registered nothing that goes through
    [setDriverId] has a defined result, on any port and for any id: the
    fallback reads [drivers[0]] of the empty vector.  This is the case of
    [setDriverId] itself, of [reset] (so of the constructors), of [fromJson]
    and of the destructors. *)
Theorem Port_setDriverId_empty_registry (w : World) (this : positive) (id : Z)
    (j : gmap string json_t) :
  drivers w = [] ->
  Port_setDriverId this id w = Fault
  /\ Input_reset this w = Fault /\ Output_reset this w = Fault
  /\ Port_fromJson this j w = Fault
  /\ Input_destructor this w = Fault /\ Output_destructor this w = Fault.
Proof.
  intros Hempty.
  pose proof (Port_setDriverId_empty this (-1) w Hempty) as Hreset.
  split; [by apply Port_setDriverId_empty|].
  unfold Input_reset, Output_reset, Port_fromJson, Input_destructor,
    Output_destructor.
  by rewrite Hreset.
Qed.

Lemma Port_setDriverId_empty_registry_witness :
  Input_reset 1%positive
    {| drivers := []; driverHeap := ∅;
       ports := {[ 1%positive := input_port (-1) (-1) None ]} |}
  = Fault.
Proof.
  destruct (Port_setDriverId_empty_registry
              {| drivers := []; driverHeap := ∅;
                 ports := {[ 1%positive := input_port (-1) (-1) None ]} |}
              1%positive 0 ∅) as (_ & Hreset & _).
  - reflexivity.
  - exact Hreset.
Defined.

(** ** midi::destroy *)

Lemma delete_drivers_spec entries (heap : gmap positive Driver) :
  NoDup entries.*2 ->
  (forall e, e ∈ entries -> is_Some (heap !! e.2)) ->
  exists heap',
    delete_drivers entries heap = Done heap'
    /\ forall d, heap' !! d = if decide (d ∈ entries.*2) then None else heap !! d.
Proof.
  revert heap. induction entries as [|[i p] rest IH]; intros heap Hnodup Hlive.
  - exists heap. split; [done|]. intros d. rewrite decide_False; [done|].
    apply not_elem_of_nil.
  - change (((i, p) :: rest).*2) with (p :: rest.*2) in *.
    change (delete_drivers ((i, p) :: rest) heap)
      with (match heap !! p with
            | Some _ => delete_drivers rest (delete p heap)
            | None => Fault
            end).
    apply NoDup_cons in Hnodup as [Hp Hnodup].
    destruct (Hlive (i, p)) as [drv Hdrv]; [apply elem_of_cons; by left|].
    simpl in Hdrv. rewrite Hdrv.
    destruct (IH (delete p heap) Hnodup) as (heap' & -> & Hlookup).
    { intros e He. destruct (decide (e.2 = p)) as [Heq|Hne].
      - exfalso. apply Hp. rewrite <- Heq. apply list_elem_of_fmap. by exists e.
      - rewrite lookup_delete_ne by done. apply Hlive. apply elem_of_cons. by right. }
    exists heap'. split; [done|]. intros d. rewrite Hlookup.
    destruct (decide (d ∈ rest.*2)) as [Hin|Hnin].
    + rewrite decide_True; [done|]. apply elem_of_cons. by right.
    + destruct (decide (d = p)) as [->|Hne].
      * rewrite lookup_delete_eq. rewrite decide_True; [done|].
        apply elem_of_cons. by left.
      * rewrite lookup_delete_ne by done. rewrite decide_False; [done|].
        intros [?|?]%elem_of_cons; done.
Qed.

Lemma delete_drivers_Done entries (heap heap' : gmap positive Driver) :
  delete_drivers entries heap = Done heap' ->
  NoDup entries.*2 /\ forall e, e ∈ entries -> is_Some (heap !! e.2).
Proof.
  revert heap. induction entries as [|[i p] rest IH]; intros heap; simpl.
  - intros _. split; [constructor|]. intros e He. by apply elem_of_nil in He.
  - destruct (heap !! p) as [drv|] eqn:Hdrv; [|done]. intros Hrest.
    destruct (IH _ Hrest) as [Hnodup Hlive]. split.
    + apply NoDup_cons. split; [|done]. intros Hin.
      apply list_elem_of_fmap in Hin as (e & Heq & He).
      destruct (Hlive e He) as [drv' Hdrv']. rewrite <- Heq in Hdrv'.
      by rewrite lookup_delete_eq in Hdrv'.
    + intros e [->|He]%elem_of_cons; [by eexists|].
      destruct (Hlive e He) as [drv' Hdrv'].
      destruct (decide (e.2 = p)) as [Heq|Hne].
      * rewrite Heq, lookup_delete_eq in Hdrv'. done.
      * rewrite lookup_delete_ne in Hdrv' by done. by eexists.
Qed.

Lemma destroy_total w :
  registry_live w -> NoDup (drivers w).*2 -> exists w', destroy w = Done w'.
Proof.
  unfold destroy, registry_live. intros Hlive Hnodup.
  rewrite Forall_forall in Hlive.
  destruct (delete_drivers_spec _ _ Hnodup Hlive) as (heap' & -> & _).
  by eexists.
Qed.

Lemma destroy_Done w w' :
  destroy w = Done w' ->
  drivers w' = [] /\ ports w' = ports w
  /\ forall d,
       driverHeap w' !! d
       = if decide (d ∈ (drivers w).*2) then None else driverHeap w !! d.
Proof.
  unfold destroy. intros Hcall.
  apply bind_Done in Hcall as (heap' & Hdel & [= <-]).
  simpl. split; [done|]. split; [done|].
  destruct (delete_drivers_Done _ _ _ Hdel) as [Hnodup Hlive].
  destruct (delete_drivers_spec _ _ Hnodup Hlive) as (heap'' & Hdel' & Hlookup).
  rewrite Hdel in Hdel'. by injection Hdel' as <-.
Qed.

(** X15.  [destroy] returns exactly when every registered driver is a live
    object and no driver object is registered twice (a second [delete] of
    the same object is undefined).  It then leaves an empty registry,
    deletes exactly the registered driver objects, and touches no port:
    the ports keep their [driver] pointers. *)
Theorem destroy_deletes_drivers (w : World) :
  ((exists w', destroy w = Done w')
   <-> registry_live w /\ NoDup (drivers w).*2)
  /\ forall w',
       destroy w = Done w' ->
       drivers w' = [] /\ ports w' = ports w
       /\ forall d,
            driverHeap w' !! d
            = if decide (d ∈ (drivers w).*2) then None else driverHeap w !! d.
Proof.
  split.
  - split.
    + unfold destroy, registry_live. intros [w' Hcall].
      apply bind_Done in Hcall as (heap' & Hdel & _).
      apply delete_drivers_Done in Hdel as [Hnodup Hlive].
      split; [by apply Forall_forall | done].
    + intros [Hlive Hnodup]. by apply destroy_total.
  - intros w'. apply destroy_Done.
Qed.

Lemma destroy_deletes_drivers_witness :
  exists w',
    destroy sample_world = Done w'
    /\ drivers w' = [] /\ driverHeap w' !! 10%positive = None.
Proof.
  destruct (destroy_deletes_drivers sample_world) as [[_ Hdone] Hspec].
  destruct Hdone as [w' Hcall].
  - split.
    + apply (bool_decide_unpack _). vm_compute. exact I.
    + apply (bool_decide_unpack _). vm_compute. exact I.
  - exists w'. split; [exact Hcall|].
    destruct (Hspec w' Hcall) as (Hdrivers & _ & Hheap).
    split; [exact Hdrivers|]. rewrite Hheap. reflexivity.
Defined.

(** X16.  After [destroy], a port that was bound to a registered driver
    holds a dangling [driver]: [getDeviceIds], [Input::getDeviceName],
    [setDeviceId] with an id that is not negative, and [setDriverId] (so the
    destructor of the port too) have no defined result. *)
Theorem destroy_then_port (w w' : World) (this : positive) (self : Port)
    (d : positive) (id : Z) :
  destroy w = Done w' ->
  ports w !! this = Some self ->
  driver self = Some d ->
  d ∈ (drivers w).*2 ->
  ports w' !! this = Some self
  /\ Port_getDeviceIds w' self = Fault
  /\ Input_getDeviceName w' self id = Fault
  /\ (0 <= id -> Port_setDeviceId this id w' = Fault)
  /\ Port_setDriverId this id w' = Fault
  /\ Input_destructor this w' = Fault /\ Output_destructor this w' = Fault.
Proof.
  intros Hdestroy Hself Hd Hreg.
  destruct (destroy_Done w w' Hdestroy) as (Hdrivers & Hports & Hheap).
  assert (driverHeap w' !! d = None) as Hgone by (by rewrite Hheap, decide_True).
  assert (ports w' !! this = Some self) as Hself' by (by rewrite Hports).
  pose proof (Port_setDriverId_empty this id w' Hdrivers) as Hset.
  pose proof (Port_setDriverId_empty this (-1) w' Hdrivers) as Hset1.
  split; [done|]. split.
  { unfold Port_getDeviceIds, Input_getDeviceIds, Output_getDeviceIds.
    rewrite Hd, Hgone. by destruct (vptr self). }
  split; [unfold Input_getDeviceName; by rewrite Hd, Hgone|].
  split.
  { intros Hid. rewrite (Port_setDeviceId_phases _ _ _ _ Hself').
    unfold destroy_device, create_device. rewrite Hd, Hgone.
    destruct (decide (0 <= deviceId self)); simpl; [done|].
    rewrite decide_True by done. by rewrite Hgone. }
  split; [done|].
  unfold Input_destructor, Output_destructor. by rewrite Hset1.
Qed.

Lemma destroy_then_port_witness :
  exists w',
    destroy sample_world = Done w'
    /\ Port_getDeviceIds w' (input_port (-1) (-1) None) = Fault.
Proof.
  destruct (destroy_total sample_world) as [w' Hcall].
  - apply (bool_decide_unpack _). vm_compute. exact I.
  - apply (bool_decide_unpack _). vm_compute. exact I.
  - exists w'. split; [exact Hcall|].
    destruct (destroy_then_port sample_world w' 1%positive
                (input_port (-1) (-1) None) 10%positive 0)
      as (_ & Hids & _).
    + exact Hcall.
    + reflexivity.
    + reflexivity.
    + apply (bool_decide_unpack _). vm_compute. exact I.
    + exact Hids.
Defined.

(** ** The destructors and reset *)



(** X18.  [reset] on a live port, with a driver registered: the port is
    left without a device and with the driver that [setDriverId(-1)] stores;
    an input port then has channel -1 and its filter passes every message,
    an output port has channel 0. *)
Theorem Port_reset_defaults (w : World) (this : positive) (self : Port) :
  ports w !! this = Some self ->
  driver_live w self ->
  drivers w <> [] ->
  exists d id wi pi wo po,
    resolve_driver (drivers w) (-1) = Some (d, id)
    /\ Input_reset this w = Done wi
    /\ ports wi !! this = Some pi
    /\ channel pi = -1 /\ (forall msg, passes_filter pi msg)
    /\ deviceId pi = -1 /\ device pi = None
    /\ driver pi = Some d /\ driverId pi = id
    /\ Output_reset this w = Done wo
    /\ ports wo !! this = Some po
    /\ channel po = 0
    /\ deviceId po = -1 /\ device po = None
    /\ driver po = Some d /\ driverId po = id.
Proof.
  intros Hself Hlive Hne.
  destruct (resolve_driver_is_Some (drivers w) (-1) Hne) as [[d id] Hres].
  destruct (Port_setDriverId_spec this (-1) w self d id Hself Hlive Hres)
    as (w1 & Hcall & Hports & _).
  destruct (assign_device_fields (vptr self) None (-1) self)
    as (_ & _ & _ & _ & _ & Hid & Hdev).
  unfold Input_reset, Output_reset. rewrite Hcall; simpl.
  rewrite Hports, lookup_insert_eq; simpl.
  eexists d, id, _, _, _, _. split; [done|]. split; [done|].
  split; [apply lookup_insert_eq|]. simpl. split; [done|].
  split; [intros msg; right; left; simpl; lia|].
  split; [done|]. split; [done|]. split; [done|]. split; [done|].
  split; [done|]. split; [apply lookup_insert_eq|]. done.
Qed.

Lemma Port_reset_defaults_witness :
  exists wi pi,
    Input_reset 1%positive sample_bound_world = Done wi
    /\ ports wi !! 1%positive = Some pi
    /\ channel pi = -1 /\ deviceId pi = -1.
Proof.
  destruct (Port_reset_defaults sample_bound_world 1%positive
              (input_port (-1) 0 (Some (10%positive, 0))))
    as (d & id & wi & pi & wo & po & _ & Hcall & Hpi & Hch & _ & Hid & _).
  - reflexivity.
  - exact sample_bound_world_live.
  - discriminate.
  - exists wi, pi. split; [exact Hcall|]. split; [exact Hpi|].
    split; [exact Hch | exact Hid].
Defined.

(** ** fromJson on any record *)

Lemma set_port_same this p w :
  ports w !! this = Some p ->
  set_port this (Port_setChannel (channel p) p) w = w.
Proof.
  intros Hp. destruct w as [ds heap ps]; unfold set_port; simpl in *. f_equal.
  destruct p; simpl. by apply insert_id.
Qed.

(** The members of a port after [assign_device], whatever its class. *)
Ltac fields_by_class self :=
  let Hc := fresh "Hc" in
  clear; destruct (vptr self) eqn:Hc; simpl; rewrite ?Hc; done.

(** [fromJson] up to the device block. *)
Lemma fromJson_driver_part this j w self d2 id2 :
  ports w !! this = Some self ->
  driver_live w self ->
  drivers w <> [] ->
  resolve_driver (drivers w) (saved_driver_id j) = Some (d2, id2) ->
  exists w2 p2,
    static_world w2 = static_world w
    /\ ports w2 !! this = Some p2
    /\ vptr p2 = vptr self /\ channel p2 = channel self
    /\ driver p2 = Some d2 /\ driverId p2 = id2
    /\ deviceId p2 = -1 /\ device p2 = None
    /\ (forall d k,
          subscribed_to w2 (vptr self) this d k <->
          subscribed_to w (vptr self) this d k
          /\ closed_device w self <> Some (d, k))
    /\ Port_fromJson this j w =
       (let! w3 := restore_device this j p2 w2 in
        let! self3 := deref (ports w3 !! this) in
        Done (set_port this (Port_setChannel (saved_channel j self3) self3) w3)).
Proof.
  intros Hself Hlive Hne Hres.
  destruct (resolve_driver_is_Some (drivers w) (-1) Hne) as [[d1 id1] Hres1].
  destruct (Port_setDriverId_spec this (-1) w self d1 id1 Hself Hlive Hres1)
    as (w1 & Hcall1 & Hports1 & Hstatic1 & Hsubs1).
  set (p1 := assign_driver (Some d1) id1 (assign_device (vptr self) None (-1) self))
    in *.
  assert (vptr p1 = vptr self /\ channel p1 = channel self
          /\ deviceId p1 = -1 /\ device p1 = None) as (Hv1 & Hch1 & Hid1 & Hdev1).
  { unfold p1. fields_by_class self. }
  assert (ports w1 !! this = Some p1) as Hself1
    by (rewrite Hports1; apply lookup_insert_eq).
  assert (forall w3 : World, forall self3 : Port,
            ports w3 !! this = Some self3 ->
            match j !! "channel"%string with
            | Some channelJ =>
                Done (set_port this
                        (Port_setChannel (to_int (json_integer_value channelJ)) self3) w3)
            | None => Done w3
            end
            = Done (set_port this (Port_setChannel (saved_channel j self3) self3) w3))
    as Hchan.
  { intros w3 self3 H3. unfold saved_channel.
    destruct (j !! "channel"%string); [done|]. by rewrite set_port_same. }
  assert (forall w2 p2, ports w2 !! this = Some p2 ->
            (let! self := deref (ports w2 !! this) in
             let! w3 := restore_device this j self w2 in
             let! self3 := deref (ports w3 !! this) in
             match j !! "channel"%string with
             | Some channelJ =>
                 Done (set_port this
                         (Port_setChannel (to_int (json_integer_value channelJ)) self3) w3)
             | None => Done w3
             end)
            = (let! w3 := restore_device this j p2 w2 in
               let! self3 := deref (ports w3 !! this) in
               Done (set_port this (Port_setChannel (saved_channel j self3) self3) w3)))
    as Hrest.
  { intros w2 p2 H2. rewrite H2; simpl.
    destruct (restore_device this j p2 w2) as [w3|]; simpl; [|done].
    destruct (ports w3 !! this) as [self3|] eqn:H3; simpl; [|done].
    by apply Hchan. }
  unfold saved_driver_id in Hres.
  destruct (j !! "driver"%string) as [driverJ|] eqn:Hkey.
  - assert (driver_live w1 p1) as Hlive1.
    { intros d _ Hbound. rewrite Hid1 in Hbound. lia. }
    rewrite <- (static_world_drivers _ _ Hstatic1) in Hres.
    destruct (Port_setDriverId_spec this _ w1 p1 d2 id2 Hself1 Hlive1 Hres)
      as (w2 & Hcall2 & Hports2 & Hstatic2 & Hsubs2).
    eexists w2, _. split; [by rewrite Hstatic2|].
    split; [rewrite Hports2; apply lookup_insert_eq|].
    split; [unfold p1; fields_by_class self|].
    split; [unfold p1; fields_by_class self|].
    split; [done|]. split; [done|].
    split; [unfold p1; fields_by_class self|].
    split; [unfold p1; fields_by_class self|].
    split.
    + intros d k.
      rewrite <- Hv1, Hsubs2, Hv1, Hsubs1.
      rewrite (closed_device_unbound w1 p1) by (rewrite Hid1; lia). split.
      * by intros [? _].
      * intros H. split; done.
    + rewrite Port_fromJson_blocks, Hcall1; simpl. rewrite Hkey, Hcall2; simpl.
      apply Hrest. rewrite Hports2. apply lookup_insert_eq.
  - rewrite Hres in Hres1. injection Hres1 as <- <-.
    exists w1, p1. split; [done|]. split; [done|]. split; [done|]. split; [done|].
    split; [done|]. split; [done|]. split; [done|]. split; [done|].
    split; [done|].
    rewrite Port_fromJson_blocks, Hcall1; simpl. rewrite Hkey; simpl.
    by apply Hrest.
Qed.

Lemma binding_consistent_setChannel this c p w :
  binding_consistent w this p ->
  binding_consistent (set_port this (Port_setChannel c p) w) this (Port_setChannel c p).
Proof. intros Hcons d k. apply (Hcons d k). Qed.

(** X19.  A record without "deviceName": [fromJson] on a live port, with a
    driver registered, returns and leaves the port without a device.  The
    driver is the one [setDriverId] stores for the "driver" value (for -1
    when the key is missing, for 0 when the value is not an integer), and
    the channel is the "channel" value, or the channel the port had when
    the key is missing. *)
Theorem Port_fromJson_without_deviceName (w : World) (this : positive)
    (self : Port) (j : gmap string json_t) :
  ports w !! this = Some self ->
  driver_live w self ->
  drivers w <> [] ->
  j !! "deviceName"%string = None ->
  exists w' self' d id,
    Port_fromJson this j w = Done w'
    /\ ports w' !! this = Some self'
    /\ resolve_driver (drivers w) (saved_driver_id j) = Some (d, id)
    /\ driver self' = Some d /\ driverId self' = id
    /\ deviceId self' = -1 /\ device self' = None
    /\ channel self' = saved_channel j self.
Proof.
  intros Hself Hlive Hne Hname.
  destruct (resolve_driver_is_Some (drivers w) (saved_driver_id j) Hne)
    as [[d id] Hres].
  destruct (fromJson_driver_part this j w self d id Hself Hlive Hne Hres)
    as (w2 & p2 & _ & Hself2 & _ & Hch2 & Hd2 & Hid2 & Hdid2 & Hdev2 & _ & ->).
  unfold restore_device. rewrite Hd2, Hname; simpl. rewrite Hself2; simpl.
  eexists _, _, d, id. split; [done|]. split; [apply lookup_insert_eq|].
  simpl. split; [done|]. split; [done|]. split; [done|]. split; [done|].
  split; [done|]. unfold saved_channel. by rewrite Hch2.
Qed.

Lemma Port_fromJson_without_deviceName_witness :
  exists w' self',
    Port_fromJson 1%positive {[ "channel"%string := JInteger 9 ]} sample_bound_world
    = Done w'
    /\ ports w' !! 1%positive = Some self'
    /\ deviceId self' = -1
    /\ channel self' = 9.
Proof.
  destruct (Port_fromJson_without_deviceName sample_bound_world 1%positive
              (input_port (-1) 0 (Some (10%positive, 0)))
              {[ "channel"%string := JInteger 9 ]})
    as (w' & self' & d & id & Hcall & Hself' & _ & _ & _ & Hid & _ & Hch).
  - reflexivity.
  - exact sample_bound_world_live.
  - discriminate.
  - reflexivity.
  - exists w', self'. split; [exact Hcall|]. split; [exact Hself'|].
    split; [exact Hid|]. rewrite Hch. reflexivity.
Defined.

(** X20.  A record whose "deviceName" is not a string: with a driver
    registered the device block is always entered, [json_string_value]
    returns a null pointer and a [std::string] is built from it; [fromJson]
    has no defined result. *)
Theorem Port_fromJson_deviceName_not_string (w : World) (this : positive)
    (self : Port) (j : gmap string json_t) (z : Z) :
  ports w !! this = Some self ->
  driver_live w self ->
  drivers w <> [] ->
  j !! "deviceName"%string = Some (JInteger z) ->
  Port_fromJson this j w = Fault.
Proof.
  intros Hself Hlive Hne Hname.
  destruct (resolve_driver_is_Some (drivers w) (saved_driver_id j) Hne)
    as [[d id] Hres].
  destruct (fromJson_driver_part this j w self d id Hself Hlive Hne Hres)
    as (w2 & p2 & _ & Hself2 & _ & _ & Hd2 & _ & _ & _ & _ & ->).
  unfold restore_device. by rewrite Hd2, Hname.
Qed.

Lemma Port_fromJson_deviceName_not_string_witness :
  Port_fromJson 1%positive {[ "deviceName"%string := JInteger 3 ]} sample_bound_world
  = Fault.
Proof.
  apply (Port_fromJson_deviceName_not_string sample_bound_world 1%positive
           (input_port (-1) 0 (Some (10%positive, 0)))
           {[ "deviceName"%string := JInteger 3 ]} 3).
  - reflexivity.
  - exact sample_bound_world_live.
  - discriminate.
  - reflexivity.
Defined.

Lemma resolved_driver_live w w2 id d id' :
  registry_live w -> static_world w2 = static_world w ->
  resolve_driver (drivers w) id = Some (d, id') ->
  is_Some (driverHeap w2 !! d).
Proof.
  intros Hreg Hstatic Hres. apply resolve_driver_in in Hres.
  unfold registry_live in Hreg. rewrite Forall_forall in Hreg.
  destruct (Hreg _ Hres) as [drv Hdrv]. simpl in Hdrv.
  destruct (static_world_lookup _ _ _ _ Hstatic Hdrv) as (drv2 & -> & _).
  by eexists.
Qed.



Lemma restore_device_consistent this j p2 w2 d :
  ports w2 !! this = Some p2 ->
  driver p2 = Some d -> is_Some (driverHeap w2 !! d) ->
  (forall v, j !! "deviceName"%string = Some v -> exists n, v = JString n) ->
  binding_consistent w2 this p2 ->
  unsubscribe_returns w2 p2 ->
  exists w3 p3,
    restore_device this j p2 w2 = Done w3
    /\ ports w3 !! this = Some p3
    /\ binding_consistent w3 this p3.
Proof.
  intros Hself Hd Hlive Hstr Hcons Hreturns. unfold restore_device. rewrite Hd.
  destruct (j !! "deviceName"%string) as [v|]; [|by exists w2, p2].
  destruct (Hstr v eq_refl) as [n ->]; simpl.
  destruct (Port_getDeviceIds_Done w2 p2 d Hd Hlive) as [ids ->]; simpl.
  destruct (find_device_Done w2 p2 d n ids Hd Hlive) as [[id|] ->]; simpl;
    [|by exists w2, p2].
  destruct (Port_setDeviceId_keeps_consistent this p2 w2 id Hself)
    as (w3 & p3 & Hcall & _ & Hports & _ & Hcons3 & _); [|done|done|].
  { intros d0 Hd0. rewrite Hd in Hd0. by injection Hd0 as <-. }
  exists w3, p3. split; [done|]. split; [|done].
  rewrite Hports. apply lookup_insert_eq.
Qed.

(** X22.  [fromJson] keeps the agreement between a port and the devices
    when the driver's unsubscribe does not fail on the device the port has
    bound: on a port whose subscriptions agree with its binding, with every
    registered driver live and at least one registered, and for every record
    whose "deviceName" is missing or a string, [fromJson] returns and the
    port is again a subscriber of exactly the device it has bound (of none
    when it has none), whether or not the subscribe of the device block
    fails. *)
Theorem Port_fromJson_invariant (w : World) (this : positive) (self : Port)
    (j : gmap string json_t) :
  ports w !! this = Some self ->
  driver_live w self -> registry_live w -> drivers w <> [] ->
  (forall v, j !! "deviceName"%string = Some v -> exists n, v = JString n) ->
  binding_consistent w this self ->
  unsubscribe_returns w self ->
  exists w' self',
    Port_fromJson this j w = Done w'
    /\ ports w' !! this = Some self'
    /\ binding_consistent w' this self'.
Proof.
  intros Hself Hlive Hreg Hne Hstr Hcons Hreturns.
  destruct (resolve_driver_is_Some (drivers w) (saved_driver_id j) Hne)
    as [[d id] Hres].
  destruct (fromJson_driver_part this j w self d id Hself Hlive Hne Hres)
    as (w2 & p2 & Hstatic2 & Hself2 & Hv2 & _ & Hd2 & _ & Hdid2 & _ & Hsubs2 & ->).
  pose proof (resolved_driver_live _ _ _ _ _ Hreg Hstatic2 Hres) as Hlive2.
  assert (binding_consistent w2 this p2) as Hcons2.
  { intros d0 k. rewrite Hv2, Hsubs2, Hdid2. split.
    - intros H. by apply binding_consistent_closed in H.
    - intros (_ & <- & Hk). lia. }
  assert (unsubscribe_returns w2 p2) as Hreturns2.
  { intros d0 drv0 _ Hk _. rewrite Hdid2 in Hk. lia. }
  destruct (restore_device_consistent this j p2 w2 d Hself2 Hd2 Hlive2 Hstr Hcons2
              Hreturns2)
    as (w3 & p3 & -> & Hself3 & Hcons3); simpl.
  rewrite Hself3; simpl.
  eexists _, _. split; [done|]. split; [apply lookup_insert_eq|].
  by apply binding_consistent_setChannel.
Qed.

Lemma Port_fromJson_invariant_witness :
  exists w' self',
    Port_fromJson 1%positive sample_record sample_bound_world = Done w'
    /\ ports w' !! 1%positive = Some self'
    /\ binding_consistent w' 1%positive self'.
Proof.
  apply (Port_fromJson_invariant sample_bound_world 1%positive
           (input_port (-1) 0 (Some (10%positive, 0))) sample_record).
  - reflexivity.
  - exact sample_bound_world_live.
  - apply (bool_decide_unpack _). vm_compute. exact I.
  - discriminate.
  - intros v Hv.
    assert (sample_record !! "deviceName"%string = Some (JString "Keys")) as Hkeys
      by (vm_compute; reflexivity).
    rewrite Hkeys in Hv. injection Hv as <-. eexists. reflexivity.
  - exact sample_bound_world_consistent.
  - exact sample_bound_world_returns.
Defined.



(** ** toJson: the keys of the record *)

(** X24.  The record that [toJson] writes has the keys "driver" and
    "channel", holding the driver id and the channel of the port, and the
    key "deviceName" exactly when the port has a device whose name is not
    empty and [json_string] accepts the name as a C string; the key then
    holds the bytes of the name before its first NUL, which are valid
    UTF-8.  A name whose bytes are not valid UTF-8 is not saved.  The
    record has no other key.  [toJson] has no defined result exactly when
    the [device] pointer is dangling. *)
Theorem Port_toJson_keys (w : World) (self : Port) :
  (Port_toJson w self = Fault
   <-> exists dev, device self = Some dev /\ device_at w (vptr self) dev = Fault)
  /\ forall j,
       Port_toJson w self = Done j ->
       j !! "driver"%string = Some (JInteger (driverId self))
       /\ j !! "channel"%string = Some (JInteger (channel self))
       /\ (forall v, j !! "deviceName"%string = Some v <->
             exists dev d,
               device self = Some dev /\ device_at w (vptr self) dev = Done d
               /\ dev_name d <> ""%string
               /\ utf8_check_string (c_str (dev_name d)) = true
               /\ v = JString (c_str (dev_name d)))
       /\ forall key, is_Some (j !! key) ->
            key = "driver"%string \/ key = "deviceName"%string
            \/ key = "channel"%string.
Proof.
  split.
  - unfold Port_toJson, Port_getDriverId, Port_getChannel, Device_getName.
    destruct (device self) as [dev|]; simpl.
    + destruct (device_at w (vptr self) dev) as [d|] eqn:Hat; simpl.
      * split; [by destruct (decide (dev_name d = ""%string))|].
        intros (dev0 & [= <-] & Hat0). congruence.
      * split; [|done]. intros _. by exists dev.
    + split; [done|]. by intros (dev0 & ? & _).
  - intros j Hjson.
    destruct (Port_toJson_lookup _ _ _ Hjson) as (Hjd & Hjc & _ & Hjname & Hjsome).
    split; [done|]. split; [done|]. split.
    + intros v. split.
      * intros Hv. destruct Hjsome as (dev & d & Hdev & Hat & Hne); [by eexists|].
        rewrite (Hjname dev d Hdev Hat Hne) in Hv. unfold json_string in Hv.
        destruct (utf8_check_string (c_str (dev_name d))) eqn:Hutf; [|done].
        injection Hv as <-. by exists dev, d.
      * intros (dev & d & Hdev & Hat & Hne & Hutf & ->).
        rewrite (Hjname dev d Hdev Hat Hne). unfold json_string. by rewrite Hutf.
    + revert Hjson.
      unfold Port_toJson, Port_getDriverId, Port_getChannel, Device_getName,
        json_object_set_new.
      assert (forall (key : string) (v1 v2 : json_t) (extra : option json_t),
                is_Some ((<["channel"%string := v2]>
                            (match extra with
                             | Some v => <["deviceName"%string := v]>
                                           (<["driver"%string := v1]> ∅)
                             | None => <["driver"%string := v1]> ∅
                             end) : gmap string json_t) !! key) ->
                key = "driver"%string \/ key = "deviceName"%string
                \/ key = "channel"%string) as Hkeys.
      { intros key v1 v2 extra [v Hv].
        apply lookup_insert_Some in Hv as [[<- _]|[_ Hv]]; [by right; right|].
        destruct extra.
        - apply lookup_insert_Some in Hv as [[<- _]|[_ Hv]]; [by right; left|].
          apply lookup_insert_Some in Hv as [[<- _]|[_ Hv]]; [by left | done].
        - apply lookup_insert_Some in Hv as [[<- _]|[_ Hv]]; [by left | done]. }
      destruct (device self) as [dev|]; simpl.
      * destruct (device_at w (vptr self) dev) as [d|]; simpl; [|done].
        destruct (decide (dev_name d = ""%string)); simpl; intros [= <-] key.
        -- apply (Hkeys key _ _ None).
        -- apply (Hkeys key _ _ (json_string (c_str (dev_name d)))).
      * intros [= <-] key. apply (Hkeys key _ _ None).
Qed.

(** A name that [json_string] refuses, and a name with a NUL byte. *)
Lemma json_string_samples :
  json_string (c_str (String (Ascii.ascii_of_nat 255) "")) = None
  /\ json_string (c_str (String (Ascii.ascii_of_nat 75) (String Ascii.zero "x"))) = Some (JString "K")
  /\ json_string (c_str "Keys") = Some (JString "Keys").
Proof. repeat split; vm_compute; reflexivity. Qed.

Lemma Port_toJson_keys_witness :
  sample_record !! "driver"%string = Some (JInteger 1)
  /\ sample_record !! "channel"%string = Some (JInteger (-1))
  /\ sample_record !! "deviceName"%string = Some (JString "Keys").
Proof.
  destruct (Port_toJson_keys sample_bound_world
              (input_port (-1) 0 (Some (10%positive, 0)))) as [_ Hkeys].
  destruct (Hkeys sample_record) as (Hdriver & Hchannel & Hname & _).
  - vm_compute. reflexivity.
  - split; [exact Hdriver|]. split; [exact Hchannel|].
    apply Hname. exists (10%positive, 0),
      {| dev_name := "Keys"; subscribed := {[ 1%positive ]} |}.
    split; [reflexivity|]. split; [vm_compute; reflexivity|].
    split; [discriminate|]. split; vm_compute; reflexivity.
Defined.

(** ** getChannels *)

(** X25.  The channels a port offers: [Input::getChannels] lists -1 and
    0..15, [Output::getChannels] lists 0..15, each channel once and in
    ascending order.  Every offered channel has a label, two different
    offered channels have different labels, and an output port set to an
    offered channel sends a message that is not a system message on exactly
    that channel. *)
Theorem getChannels_offered (c c' : Z) :
  (c ∈ Input_getChannels <-> -1 <= c <= 15)
  /\ (c ∈ Output_getChannels <-> 0 <= c <= 15)
  /\ NoDup Input_getChannels /\ NoDup Output_getChannels
  /\ StronglySorted Z.lt Input_getChannels
  /\ StronglySorted Z.lt Output_getChannels
  /\ (c ∈ Input_getChannels -> c' ∈ Input_getChannels ->
        (exists label, Port_getChannelName c = Done label)
        /\ (Port_getChannelName c = Port_getChannelName c' -> c = c'))
  /\ (c ∈ Output_getChannels ->
        forall self m dev,
          outputDevice self = Some dev -> getStatus m <> 0xf ->
          exists msg,
            Output_sendMessage (Port_setChannel c self) m = Some (dev, msg)
            /\ getChannel msg = c).
Proof.
  split; [apply Input_getChannels_domain|].
  split; [apply Output_getChannels_domain|].
  split; [apply (bool_decide_unpack _); vm_compute; exact I|].
  split; [apply (bool_decide_unpack _); vm_compute; exact I|].
  split; [apply (bool_decide_unpack _); vm_compute; exact I|].
  split; [apply (bool_decide_unpack _); vm_compute; exact I|].
  split.
  - rewrite !Input_getChannels_domain. intros Hc Hc'.
    unfold Port_getChannelName. split.
    + destruct (decide (c < 0)); [by eexists|].
      rewrite decide_True by lia. by eexists.
    + destruct (decide (c < 0)), (decide (c' < 0)); [lia | | |].
      * rewrite decide_True by lia. intros [= H].
      * rewrite decide_True by lia. intros [= H].
      * rewrite !decide_True by lia. intros [= Heq].
        simpl in Heq. pose proof (pretty_Z_inj _ _ Heq). lia.
  - rewrite Output_getChannels_domain. intros Hc self m dev Hdev Hst.
    unfold Output_sendMessage; simpl. rewrite Hdev.
    rewrite bool_decide_true by done. rewrite bool_decide_true by lia. simpl.
    eexists. split; [done|]. apply getChannel_setChannel_nibble. lia.
Qed.

Lemma getChannels_offered_witness :
  exists msg,
    Output_sendMessage (Port_setChannel 7 (output_port 0 0 (Some (10%positive, 0))))
      (note_on 2)
    = Some ((10%positive, 0), msg)
    /\ getChannel msg = 7.
Proof.
  destruct (getChannels_offered 7 7) as (_ & _ & _ & _ & _ & _ & _ & Hsend).
  apply (Hsend ltac:(apply (bool_decide_unpack _); vm_compute; exact I)
           (output_port 0 0 (Some (10%positive, 0))) (note_on 2) (10%positive, 0)).
  - reflexivity.
  - vm_compute. discriminate.
Defined.
